(** * FinForge: fraud-ring report, consolidation contract and dashboard components

    A shallow embedding of the FinForge dashboard (React components under
    [frontend/src/components]) and of the consolidation stage whose output
    the components display.  Each module follows one source unit:

    - [Scoring]        diminishing-returns suspicion score (consolidator)
    - [Rings]          ring deduplication and identifiers (consolidator)
    - [RingPanel]      RingPanel.jsx
    - [AccountsTable]  AccountsTable.jsx
    - [StatsStrip]     StatsStrip.jsx
    - [GraphPanel]     GraphPanel.jsx
    - [DownloadBar]    DownloadBar.jsx

    The consolidator is a Python service that is not part of the sources
    at hand; its two modules are written from the design document and say
    so at each definition. *)

From Stdlib Require Import ZArith QArith Qround Qminmax Qabs.
From Stdlib Require Import List String Ascii Bool Lia Lqa.
From Stdlib Require Import Sorting.Sorted Sorting.Permutation.
From Stdlib Require Import Decimal DecimalNat DecimalString.
From stdpp Require Import gmap strings sorting.
Import ListNotations.

Local Open Scope Z_scope.

(* ================================================================== *)
(** ** Suspicion score accumulation *)
(* ================================================================== *)

Module Scoring.

(** Modelled from the spec: clamping to an interval, as the scorer
    applies it to every updated score (the Python scorer is not among
    the sources). *)
Definition clamp (lo hi x : Q) : Q := Qmax lo (Qmin hi x).

(** Modelled from the spec: the diminishing-returns step of the scorer,
    before clamping: a contribution [c] moves the current score [s] to
    [s + c * (1 - s/120)]. *)
Definition raw_update (s c : Q) : Q := (s + c * (1 - s / 120))%Q.

(** Modelled from the spec: the scorer's per-account score update, the
    step above clamped to [[0, 100]]. *)
Definition update (s c : Q) : Q := clamp 0 100 (raw_update s c).

(** Modelled from the spec: the scorer's table maps an account to its
    current score; scores start at 0 and each contribution event
    rewrites the entry of its account. *)
Definition contribute (t : gmap string Q) (ev : string * Q) : gmap string Q :=
  <[ ev.1 := update (default 0%Q (t !! ev.1)) ev.2 ]> t.

(** Modelled from the spec: the scorer applies the contributions in
    their fixed order, starting from the empty table. *)
Definition run (events : list (string * Q)) : gmap string Q :=
  fold_left contribute events ∅.

(** Modelled from the spec: the emitted [suspicion_score] is the table
    entry rounded to an integer.  The service is written in Python,
    whose [round] takes the nearest integer and resolves halves to the
    even neighbour. *)
Definition round_half_even (q : Q) : Z :=
  let f := Qfloor q in
  match (q - inject_Z f ?= 1 # 2)%Q with
  | Lt => f
  | Gt => f + 1
  | Eq => if Z.even f then f else f + 1
  end.

(** Modelled from the spec: the scorer emits every table entry rounded. *)
Definition emit (t : gmap string Q) : gmap string Z := round_half_even <$> t.

(** Modelled from the spec: the [suspicion_score] of each account of the
    report, from the contributions of a run. *)
Definition suspicion_scores (events : list (string * Q)) : gmap string Z :=
  emit (run events).

Definition in_range (s : Q) : Prop := (0 <= s /\ s <= 100)%Q.

(** *** Facts about the update *)

Lemma clamp_in_range x : in_range (clamp 0 100 x).
Proof.
  unfold in_range, clamp. split.
  - apply Q.le_max_l.
  - apply Q.max_lub; [ discriminate | apply Q.le_min_l ].
Qed.

Lemma update_in_range s c : in_range (update s c).
Proof. apply clamp_in_range. Qed.

(** Below the cap the headroom factor [1 - s/120] is at least [1/6], so
    a non-negative contribution never lowers the score: the lower clamp
    is idle on the inputs the scorer produces. *)
Lemma raw_update_grows s c :
  in_range s -> (0 <= c)%Q -> (s <= raw_update s c)%Q.
Proof.
  intros [Hs0 Hs1] Hc. unfold raw_update.
  assert (Hh : (0 <= 1 - s / 120)%Q).
  { assert (E : (1 - s / 120 == (120 - s) * (1 # 120))%Q) by field.
    rewrite E. apply Qmult_le_0_compat; [ lra | discriminate ]. }
  pose proof (Qmult_le_0_compat _ _ Hc Hh). lra.
Qed.

Lemma update_grows s c :
  in_range s -> (0 <= c)%Q -> (s <= update s c)%Q.
Proof.
  intros Hs Hc. unfold update, clamp.
  eapply Qle_trans; [ | apply Q.le_max_r ].
  apply Q.min_glb; [ apply Hs | now apply raw_update_grows ].
Qed.

(** *** Rounding keeps integers bounds *)

Lemma round_half_even_bounds q :
  Qfloor q <= round_half_even q <= Qfloor q + 1.
Proof.
  unfold round_half_even.
  destruct (q - inject_Z (Qfloor q) ?= 1 # 2)%Q; [ destruct (Z.even _) | | ]; lia.
Qed.

Lemma round_half_even_int (z : Z) : round_half_even (inject_Z z) = z.
Proof.
  unfold round_half_even. rewrite Qfloor_Z.
  assert (H : (inject_Z z - inject_Z z ?= 1 # 2)%Q = Lt).
  { apply (proj1 (Qlt_alt _ _)). generalize (inject_Z z). intros x. lra. }
  now rewrite H.
Qed.

Lemma round_in_range q : in_range q -> 0 <= round_half_even q <= 100.
Proof.
  intros [H0 H1]. pose proof (round_half_even_bounds q) as [Hlo Hhi].
  assert (F0 : 0 <= Qfloor q).
  { change 0 with (Qfloor (inject_Z 0)). rewrite <- (Qfloor_Z 0) at 1.
    now apply Qfloor_resp_le. }
  split; [ lia | ].
  destruct (Qle_lt_or_eq _ _ H1) as [Hlt | Heq].
  - assert (Qfloor q < 100).
    { apply Z.lt_nge. intros Hge.
      pose proof (Qfloor_le q) as Hf.
      assert (inject_Z 100 <= inject_Z (Qfloor q))%Q by (rewrite <- Zle_Qle; exact Hge).
      change (inject_Z 100) with 100%Q in *. lra. }
    lia.
  - assert (E : round_half_even q = round_half_even (inject_Z 100)).
    { unfold round_half_even.
      assert (Ef : Qfloor q = Qfloor (inject_Z 100)) by (apply Qfloor_comp; exact Heq).
      rewrite Ef.
      assert (Ec : (q - inject_Z (Qfloor (inject_Z 100)) ?= 1 # 2)%Q
                 = (inject_Z 100 - inject_Z (Qfloor (inject_Z 100)) ?= 1 # 2)%Q).
      { apply Qcompare_comp; [ | reflexivity ]. now rewrite Heq. }
      now rewrite Ec. }
    rewrite E, round_half_even_int. lia.
Qed.

(** *** The table invariant *)

Lemma contribute_in_range t ev :
  map_Forall (fun _ s => in_range s) t ->
  map_Forall (fun _ s => in_range s) (contribute t ev).
Proof.
  intros Ht. unfold contribute.
  apply map_Forall_insert_2; [ apply update_in_range | exact Ht ].
Qed.

Lemma fold_contribute_in_range events t :
  map_Forall (fun _ s => in_range s) t ->
  map_Forall (fun _ s => in_range s) (fold_left contribute events t).
Proof.
  revert t. induction events as [ | ev events IH ]; intros t Ht; simpl.
  - exact Ht.
  - apply IH. now apply contribute_in_range.
Qed.

Lemma run_in_range events : map_Forall (fun _ s => in_range s) (run events).
Proof. apply fold_contribute_in_range, map_Forall_empty. Qed.

(** C1.  Every emitted suspicion score is an integer between 0 and 100,
    and the clamped diminishing-returns update [s + c * (1 - s/120)]
    maps a score in [[0,100]] and a non-negative contribution to a score
    in [[0,100]]. *)
Theorem score_bounds :
  (forall events a z, suspicion_scores events !! a = Some z -> 0 <= z <= 100) /\
  (forall s c, (0 <= s)%Q -> (s <= 100)%Q -> (0 <= c)%Q ->
     (0 <= update s c)%Q /\ (update s c <= 100)%Q).
Proof.
  split.
  - intros events a z H. unfold suspicion_scores, emit in H.
    rewrite lookup_fmap in H.
    destruct (run events !! a) as [ s | ] eqn:E; simpl in H; [ | discriminate ].
    injection H as <-. apply round_in_range.
    exact (run_in_range events a s E).
  - intros s c _ _ _. apply update_in_range.
Qed.


(** A length-3 cycle (85) followed by a weak signal (14) ends at 89. *)
Example score_two_signals :
  suspicion_scores [("ACC_A", 85%Q); ("ACC_A", 14%Q); ("ACC_B", 30%Q)] !! "ACC_A"%string
  = Some 89.
Proof. vm_compute. reflexivity. Qed.

Lemma score_bounds_witness :
  0 <= 89 <= 100 /\ ((0 <= update 50 85)%Q /\ (update 50 85 <= 100)%Q).
Proof.
  split.
  - apply (proj1 score_bounds
             [("ACC_A", 85%Q); ("ACC_A", 14%Q); ("ACC_B", 30%Q)] "ACC_A"%string 89).
    vm_compute. reflexivity.
  - apply (proj2 score_bounds 50%Q 85%Q); unfold Qle; simpl; lia.
Defined.

End Scoring.

(* ================================================================== *)
(** ** Stable sorting, as Python's [sorted] and JavaScript's
       [Array.prototype.sort] provide it *)
(* ================================================================== *)

Module StableSort.

Section Sort.
Context {A : Type} (before : A -> A -> bool).

(** [before x y] says that [x] may stand ahead of [y].  An element is
    put ahead of the first element it may stand ahead of, so elements
    that compare equal keep their input order. *)
Fixpoint insert (x : A) (l : list A) : list A :=
  match l with
  | [] => [x]
  | y :: l' => if before x y then x :: l else y :: insert x l'
  end.

Definition sort (l : list A) : list A := fold_right insert [] l.

Definition ahead (x y : A) : Prop := before x y = true.

Lemma insert_perm x l : Permutation (insert x l) (x :: l).
Proof.
  induction l as [ | y l IH ]; simpl; [ reflexivity | ].
  destruct (before x y); [ reflexivity | ].
  rewrite IH. apply perm_swap.
Qed.

Lemma sort_perm l : Permutation (sort l) l.
Proof.
  induction l as [ | x l IH ]; simpl; [ reflexivity | ].
  rewrite insert_perm. now constructor.
Qed.


(** A list that is already in order is left as it is. *)
Lemma insert_head x l : HdRel ahead x l -> insert x l = x :: l.
Proof.
  intros H. destruct l as [ | y l ]; simpl; [ reflexivity | ].
  inversion H as [ | ? ? Hxy ]; subst. unfold ahead in Hxy. now rewrite Hxy.
Qed.

Lemma sort_sorted_id l : Sorted ahead l -> sort l = l.
Proof.
  induction 1 as [ | x l Hs IH Hh ]; simpl; [ reflexivity | ].
  rewrite IH. now apply insert_head.
Qed.

(** Stability: elements of a class whose members may all stand ahead of
    one another come out in their input order. *)
Lemma insert_filter (P : A -> bool) x l :
  (forall y, P x = true -> P y = true -> before x y = true) ->
  List.filter P (insert x l) = List.filter P (x :: l).
Proof.
  intros HP. induction l as [ | y l IH ]; [ reflexivity | ].
  cbn [insert]. destruct (before x y) eqn:E; [ reflexivity | ].
  cbn [List.filter] in *. rewrite IH.
  destruct (P x) eqn:Ex, (P y) eqn:Ey; try reflexivity.
  rewrite (HP y eq_refl Ey) in E. discriminate.
Qed.

Lemma sort_stable (P : A -> bool) l :
  (forall x y, P x = true -> P y = true -> before x y = true) ->
  List.filter P (sort l) = List.filter P l.
Proof.
  intros HP. induction l as [ | x l IH ]; [ reflexivity | ].
  cbn [sort fold_right]. fold (sort l).
  rewrite insert_filter by (intros y; apply HP).
  cbn [List.filter]. now rewrite IH.
Qed.

Section Total.
Hypothesis before_total : forall x y, before x y = false -> before y x = true.

Lemma insert_hdrel x y l :
  ahead y x -> HdRel ahead y l -> HdRel ahead y (insert x l).
Proof.
  intros Hyx Hh. destruct l as [ | z l ]; simpl.
  - now constructor.
  - destruct (before x z); constructor; [ exact Hyx | ].
    now inversion Hh.
Qed.

Lemma insert_sorted x l : Sorted ahead l -> Sorted ahead (insert x l).
Proof.
  induction 1 as [ | y l Hs IH Hh ]; simpl.
  - repeat constructor.
  - destruct (before x y) eqn:E.
    + constructor; [ now constructor | now constructor ].
    + constructor; [ exact IH | ].
      apply insert_hdrel; [ now apply before_total | exact Hh ].
Qed.

Lemma sort_sorted l : Sorted ahead (sort l).
Proof.
  induction l as [ | x l IH ]; simpl; [ constructor | now apply insert_sorted ].
Qed.

End Total.
End Sort.

End StableSort.

(** Positions in a strongly sorted list are related in list order. *)
Lemma StronglySorted_lookup {A} (R : A -> A -> Prop) (l : list A) p q x y :
  StronglySorted R l -> (p < q)%nat -> l !! p = Some x -> l !! q = Some y -> R x y.
Proof.
  intros Hs. revert p q. induction Hs as [ | a l Hs IH Hall ]; intros p q Hpq Hp Hq.
  - discriminate.
  - destruct q as [ | q ]; [ lia | ]. simpl in Hq.
    destruct p as [ | p ]; simpl in Hp.
    + injection Hp as <-. rewrite Forall_forall in Hall.
      apply Hall. eapply list_elem_of_lookup_2. exact Hq.
    + apply (IH p q); [ lia | exact Hp | exact Hq ].
Qed.

(** Sortedness of an image list, read on the list itself. *)
Lemma Sorted_fmap_inv {A B} (f : A -> B) (R : B -> B -> Prop) (l : list A) :
  Sorted R (f <$> l) -> Sorted (fun x y => R (f x) (f y)) l.
Proof.
  induction l as [ | x l IH ]; intros H; [ constructor | ].
  cbn [fmap list_fmap] in H. apply Sorted_inv in H as [ Hs Hh ].
  constructor; [ now apply IH | ].
  destruct l as [ | y l ]; constructor. now inversion Hh.
Qed.

(** ** Lexicographic order on account identifiers *)

Module StringOrder.

Lemma ascii_compare_refl c : Ascii.compare c c = Eq.
Proof. apply N.compare_refl. Qed.

Lemma ascii_compare_lt_trans a b c :
  Ascii.compare a b = Lt -> Ascii.compare b c = Lt -> Ascii.compare a c = Lt.
Proof.
  unfold Ascii.compare. rewrite !N.compare_lt_iff. apply N.lt_trans.
Qed.

Lemma leb_refl s : String.leb s s = true.
Proof.
  unfold String.leb. induction s as [ | c s IH ]; simpl; [ reflexivity | ].
  now rewrite ascii_compare_refl.
Qed.

Lemma leb_trans s t u :
  String.leb s t = true -> String.leb t u = true -> String.leb s u = true.
Proof.
  unfold String.leb. revert t u.
  induction s as [ | x s IH ]; intros [ | y t ] [ | z u ]; simpl; try easy.
  destruct (Ascii.compare x y) eqn:Exy; destruct (Ascii.compare y z) eqn:Eyz;
    try discriminate.
  - apply Ascii.compare_eq_iff in Exy, Eyz. subst.
    rewrite ascii_compare_refl. apply IH.
  - apply Ascii.compare_eq_iff in Exy. subst. now rewrite Eyz.
  - apply Ascii.compare_eq_iff in Eyz. subst. now rewrite Exy.
  - now rewrite (ascii_compare_lt_trans _ _ _ Exy Eyz).
Qed.

End StringOrder.

(* ================================================================== *)
(** ** Ring consolidation: deduplication and identifiers *)
(* ================================================================== *)

Module Rings.

(** Modelled from the spec: the three pattern types of the
    consolidator's rings (the Python consolidator is not among the
    sources). *)
Inductive PatternType := cycle | smurfing | shell_network.

#[global] Instance PatternType_eq_dec : EqDecision PatternType.
Proof. solve_decision. Defined.

(** Modelled from the spec: a candidate ring as the consolidator builds
    it from a detector hit, before an identifier is assigned (the Python
    consolidator is not among the sources).  Candidates are kept in
    construction order; a candidate is identified by its position. *)
Record Candidate := {
  pattern_type : PatternType;
  member_accounts : list string;
  risk_score : Q
}.

(** Modelled from the spec: the members of a ring as a set, and their
    number, as the consolidator's overlap test counts them. *)
Definition members (c : Candidate) : gset string := list_to_set (member_accounts c).

Definition card (c : Candidate) : nat := size (members c).

(** Modelled from the spec: overlap = |A ∩ B| / min(|A|, |B|).  Rings
    have at least one member; the quotient of an empty ring is 0 here. *)
Definition overlap (a b : Candidate) : Q :=
  (inject_Z (Z.of_nat (size (members a ∩ members b)))
   / inject_Z (Z.of_nat (Nat.min (card a) (card b))))%Q.

(** Modelled from the spec: the consolidator's overlap threshold 0.85,
    and its test [overlap > 0.85]. *)
Definition threshold : Q := 85 # 100.

Definition overlapping (a b : Candidate) : bool :=
  negb (Qle_bool (overlap a b) threshold).

(** Modelled from the spec: of two overlapping rings the lower-scoring
    one is dropped; on equal scores the one with fewer members, and on
    equal member counts the one constructed later.  [beats ia jb] says
    that candidate [ia] wins against candidate [jb]. *)
Definition beats (ia jb : nat * Candidate) : bool :=
  match (risk_score ia.2 ?= risk_score jb.2)%Q with
  | Gt => true
  | Lt => false
  | Eq => match Nat.compare (card ia.2) (card jb.2) with
          | Gt => true
          | Lt => false
          | Eq => (ia.1 <? jb.1)%nat
          end
  end.

Definition indexed (cands : list Candidate) : list (nat * Candidate) :=
  imap (fun i c => (i, c)) cands.

Definition same_type (a b : Candidate) : bool :=
  bool_decide (pattern_type a = pattern_type b).

(** Modelled from the spec: the consolidator's reason to drop a ring.
    [dominated all jb]: some other candidate of the same pattern type
    overlaps [jb] above the threshold and wins against it. *)
Definition dominated (all : list (nat * Candidate)) (jb : nat * Candidate) : bool :=
  existsb (fun ia =>
             negb (ia.1 =? jb.1)%nat && same_type ia.2 jb.2
             && overlapping ia.2 jb.2 && beats ia jb) all.

(** Modelled from the spec: rings are compared pairwise within a pattern
    type, and every ring that loses a comparison is dropped. *)
Definition survivors (cands : list Candidate) : list (nat * Candidate) :=
  filter (fun jb => dominated (indexed cands) jb = false) (indexed cands).

(** Modelled from the spec: the consolidator's deduplicated rings, in
    construction order. *)
Definition dedup (cands : list Candidate) : list Candidate := (survivors cands).*2.

(** The ordering of the spec's sentence, as a proposition: [jb] is the
    lower ring of the pair. *)
Definition lower (jb ia : nat * Candidate) : Prop :=
  (risk_score jb.2 < risk_score ia.2)%Q \/
  ((risk_score jb.2 == risk_score ia.2)%Q /\
   ((card jb.2 < card ia.2)%nat \/
    (card jb.2 = card ia.2 /\ (ia.1 < jb.1)%nat))).

(** *** Ring identifiers *)

Definition str_min (a b : string) : string := if String.leb a b then a else b.

(** Modelled from the spec: the smallest member identifier of a ring in
    lexicographic order, the consolidator's tie-break key. *)
Definition smallest_member (c : Candidate) : string :=
  match member_accounts c with
  | [] => EmptyString
  | m :: ms => fold_left str_min ms m
  end.

(** Modelled from the spec: surviving rings are ranked by descending
    [risk_score], ties by ascending smallest member identifier. *)
Definition ranked_before (a b : Candidate) : bool :=
  match (risk_score a ?= risk_score b)%Q with
  | Gt => true
  | Lt => false
  | Eq => String.leb (smallest_member a) (smallest_member b)
  end.

Definition decimal (n : nat) : string := NilEmpty.string_of_uint (Nat.to_uint n).

Fixpoint zeros (k : nat) : string :=
  match k with
  | O => EmptyString
  | S k => String "0" (zeros k)
  end.

Definition pad3 (s : string) : string :=
  String.append (zeros (3 - String.length s)) s.

(** Modelled from the spec: identifiers [R001], [R002], ...: the letter
    R and the ring number in decimal, zero-padded to three digits. *)
Definition ring_id_of (n : nat) : string := String "R" (pad3 (decimal n)).

(** The number an identifier stands for. *)
Definition ring_number (id : string) : option nat :=
  match id with
  | String "R" s => Nat.of_uint <$> NilEmpty.uint_of_string s
  | _ => None
  end.

(** Modelled from the spec: a ring of the consolidator's output, a
    candidate with its identifier. *)
Record Ring := { ring_id : string; candidate : Candidate }.

(** Modelled from the spec: the consolidator numbers the ranked rings
    from 1 in list order. *)
Definition number_rings (l : list Candidate) : list Ring :=
  imap (fun i c => {| ring_id := ring_id_of (S i); candidate := c |}) l.

(** Modelled from the spec: the report's [fraud_rings]: deduplicate, rank,
    renumber; the list is emitted in numbering order. *)
Definition fraud_rings (cands : list Candidate) : list Ring :=
  number_rings (StableSort.sort ranked_before (dedup cands)).

Example ring_id_1 : ring_id_of 1 = "R001"%string.
Proof. reflexivity. Qed.

Example ring_id_42 : ring_id_of 42 = "R042"%string.
Proof. reflexivity. Qed.

Example ring_id_1000 : ring_id_of 1000 = "R1000"%string.
Proof. reflexivity. Qed.

(** Three candidate cycles: [ring_b] shares three of four members with
    [ring_a], [ring_c] has the members of [ring_a]. *)
Definition ring_a : Candidate :=
  {| pattern_type := cycle; member_accounts := ["A"; "B"; "C"; "D"]%string; risk_score := 90 |}.

Definition ring_b : Candidate :=
  {| pattern_type := cycle; member_accounts := ["A"; "B"; "C"; "E"]%string; risk_score := 80 |}.

Definition ring_c : Candidate :=
  {| pattern_type := cycle; member_accounts := ["D"; "C"; "B"; "A"]%string; risk_score := 85 |}.

Example overlap_three_of_four : overlap ring_a ring_b = (3 # 4)%Q.
Proof. vm_compute. reflexivity. Qed.

Example dedup_threshold : dedup [ring_b; ring_c; ring_a] = [ring_b; ring_a].
Proof. vm_compute. reflexivity. Qed.

Example fraud_rings_sample :
  fraud_rings [ring_b; ring_c; ring_a]
  = [ {| ring_id := "R001"; candidate := ring_a |};
      {| ring_id := "R002"; candidate := ring_b |} ].
Proof. vm_compute. reflexivity. Qed.

(** *** Deduplication *)

Lemma overlap_sym a b : overlap a b = overlap b a.
Proof.
  unfold overlap. now rewrite (comm_L (∩) (members a)), Nat.min_comm.
Qed.

Lemma overlapping_spec a b : overlapping a b = true <-> (threshold < overlap a b)%Q.
Proof.
  unfold overlapping. rewrite negb_true_iff. split.
  - intros H. apply Qnot_le_lt. intros Hle.
    apply Qle_bool_iff in Hle. congruence.
  - intros H. destruct (Qle_bool (overlap a b) threshold) eqn:E; [ | reflexivity ].
    apply Qle_bool_iff in E. exfalso. now apply (Qlt_not_le _ _ H).
Qed.

Lemma beats_lower ia jb : beats ia jb = true <-> lower jb ia.
Proof.
  unfold beats, lower.
  destruct (Qcompare_spec (risk_score ia.2) (risk_score jb.2)) as [ He | Hlt | Hgt ].
  - destruct (Nat.compare_spec (card ia.2) (card jb.2)) as [ Hc | Hc | Hc ].
    + rewrite Nat.ltb_lt. split.
      * intros Hi. right. split; [ now symmetry | right; split; [ now symmetry | exact Hi ] ].
      * intros [ Hl | [ _ [ Hl | [ _ Hi ] ] ] ]; [ | lia | exact Hi ].
        rewrite He in Hl. now apply Qlt_irrefl in Hl.
    + split; [ discriminate | ].
      intros [ Hl | [ _ [ Hl | [ Hl _ ] ] ] ]; [ | lia | lia ].
      rewrite He in Hl. now apply Qlt_irrefl in Hl.
    + split; [ | reflexivity ].
      intros _. right. split; [ now symmetry | left; exact Hc ].
  - split; [ discriminate | ].
    intros [ Hl | [ He _ ] ].
    + exfalso. apply (Qlt_irrefl (risk_score ia.2)). now apply Qlt_trans with (risk_score jb.2).
    + rewrite He in Hlt. now apply Qlt_irrefl in Hlt.
  - split; [ | reflexivity ]. intros _. now left.
Qed.

(** Two candidates at different positions are always comparable: one of
    them is the lower ring. *)
Lemma lower_total ia jb : ia.1 <> jb.1 -> lower jb ia \/ lower ia jb.
Proof.
  intros Hne. unfold lower.
  destruct (Qcompare_spec (risk_score ia.2) (risk_score jb.2)) as [ He | Hlt | Hgt ].
  - destruct (Nat.compare_spec (card ia.2) (card jb.2)) as [ Hc | Hc | Hc ].
    + destruct (Nat.lt_total ia.1 jb.1) as [ Hi | [ Hi | Hi ] ]; [ | contradiction | ].
      * left. right. split; [ now symmetry | right; split; [ now symmetry | exact Hi ] ].
      * right. right. split; [ exact He | right; split; [ exact Hc | exact Hi ] ].
    + right. right. split; [ exact He | left; exact Hc ].
    + left. right. split; [ now symmetry | left; exact Hc ].
  - right. now left.
  - left. now left.
Qed.

Lemma indexed_elem i a cands : (i, a) ∈ indexed cands <-> cands !! i = Some a.
Proof.
  unfold indexed. rewrite elem_of_lookup_imap. split.
  - intros (j & b & E & H). now injection E as -> ->.
  - intros H. now exists i, a.
Qed.

Lemma indexed_positions cands : (indexed cands).*1 = seq 0 (length cands).
Proof.
  unfold indexed. rewrite fmap_imap.
  change (imap _ cands) with (imap (fun (j : nat) (_ : Candidate) => id j) cands).
  rewrite (imap_seq_0 cands id). apply list_fmap_id.
Qed.

Lemma survivors_positions_NoDup cands : NoDup (survivors cands).*1.
Proof.
  assert (Hsub : (survivors cands).*1 `sublist_of` (indexed cands).*1).
  { apply fmap_sublist. unfold survivors. apply sublist_filter. }
  eapply sublist_NoDup; [ | exact Hsub ].
  rewrite indexed_positions. apply NoDup_seq.
Qed.

Lemma dominated_intro all ia jb :
  ia ∈ all -> ia.1 <> jb.1 -> pattern_type ia.2 = pattern_type jb.2 ->
  (threshold < overlap ia.2 jb.2)%Q -> lower jb ia ->
  dominated all jb = true.
Proof.
  intros Hin Hne Hty Hov Hlow. unfold dominated.
  apply existsb_exists. exists ia. split; [ now apply list_elem_of_In | ].
  rewrite !andb_true_iff. repeat split.
  - apply negb_true_iff, Nat.eqb_neq, Hne.
  - unfold same_type. now apply bool_decide_eq_true.
  - now apply overlapping_spec.
  - now apply beats_lower.
Qed.

(** A candidate survives exactly when no other candidate of its pattern
    type overlaps it above the threshold and wins against it. *)
Lemma survivor_iff cands j b :
  (j, b) ∈ survivors cands <->
  cands !! j = Some b /\
  ~ exists i a, cands !! i = Some a /\ i <> j /\ pattern_type a = pattern_type b /\
                (threshold < overlap a b)%Q /\ lower (j, b) (i, a).
Proof.
  unfold survivors. rewrite list_elem_of_filter, indexed_elem. split.
  - intros [ Hd Hj ]. split; [ exact Hj | ].
    intros (i & a & Hi & Hne & Hty & Hov & Hlow).
    rewrite (dominated_intro (indexed cands) (i, a) (j, b)) in Hd;
      [ discriminate | now apply indexed_elem | exact Hne | exact Hty | exact Hov | exact Hlow ].
  - intros [ Hj Hno ]. split; [ | exact Hj ].
    destruct (dominated (indexed cands) (j, b)) eqn:E; [ | reflexivity ].
    exfalso. apply Hno. unfold dominated in E.
    apply existsb_exists in E. destruct E as ([i a] & Hin & Hc).
    rewrite !andb_true_iff in Hc. destruct Hc as [ [ [ Hne Hty ] Hov ] Hb ].
    exists i, a. repeat split.
    + apply indexed_elem. now apply list_elem_of_In.
    + apply negb_true_iff, Nat.eqb_neq in Hne. exact Hne.
    + unfold same_type in Hty. now apply bool_decide_eq_true in Hty.
    + now apply overlapping_spec.
    + now apply beats_lower.
Qed.

(** *** Ranking and numbering *)

Lemma ranked_before_total a b :
  ranked_before a b = false -> ranked_before b a = true.
Proof.
  unfold ranked_before. rewrite <- (Qcompare_antisym (risk_score a) (risk_score b)).
  destruct (risk_score a ?= risk_score b)%Q; cbn [CompOpp]; try easy.
  intros H.
  destruct (String.leb_total (smallest_member a) (smallest_member b)) as [ H' | H' ];
    [ rewrite H' in H; discriminate | exact H' ].
Qed.


Lemma ranked_before_spec a b :
  ranked_before a b = true ->
  (risk_score b <= risk_score a)%Q /\
  ((risk_score a == risk_score b)%Q ->
   String.leb (smallest_member a) (smallest_member b) = true).
Proof.
  unfold ranked_before.
  destruct (Qcompare_spec (risk_score a) (risk_score b)) as [ He | Hlt | Hgt ];
    intros H; try discriminate.
  - split; [ lra | intros _; exact H ].
  - split; [ lra | intros He; exfalso; lra ].
Qed.

Lemma of_uint_D0 d : Nat.of_uint (D0 d) = Nat.of_uint d.
Proof. reflexivity. Qed.

Lemma parse_zeros k s :
  Nat.of_uint <$> NilEmpty.uint_of_string (String.append (zeros k) s)
  = Nat.of_uint <$> NilEmpty.uint_of_string s.
Proof.
  induction k as [ | k IH ]; [ reflexivity | ].
  rewrite <- IH. clear IH.
  change (String.append (zeros (S k)) s) with (String "0" (String.append (zeros k) s)).
  cbn [NilEmpty.uint_of_string].
  destruct (NilEmpty.uint_of_string (String.append (zeros k) s)) as [ d | ];
    [ | reflexivity ].
  cbn [uint_of_char fmap option_fmap option_map]. now rewrite of_uint_D0.
Qed.

Lemma ring_number_of n : ring_number (ring_id_of n) = Some n.
Proof.
  unfold ring_number, ring_id_of, pad3, decimal. simpl.
  rewrite parse_zeros, NilEmpty.usu. simpl.
  now rewrite DecimalNat.Unsigned.of_to.
Qed.

#[global] Instance ring_id_of_inj : Inj (=) (=) ring_id_of.
Proof.
  intros n m E. apply (f_equal ring_number) in E.
  rewrite !ring_number_of in E. now injection E.
Qed.


Lemma number_rings_candidates l : candidate <$> number_rings l = l.
Proof.
  unfold number_rings. rewrite fmap_imap.
  change (imap _ l) with (imap (const (@id Candidate)) l).
  rewrite imap_const. apply list_fmap_id.
Qed.




(** C3.  Two distinct surviving rings of the same pattern type overlap
    by at most 0.85, in the deduplicated list and in the emitted report;
    and of two candidate rings of the same pattern type that overlap
    above 0.85 the lower one (lower score, then fewer members, then
    later construction) does not survive. *)
Theorem dedup_correct (cands : list Candidate) :
  (forall p q a b,
      p <> q -> dedup cands !! p = Some a -> dedup cands !! q = Some b ->
      pattern_type a = pattern_type b -> (overlap a b <= 85 # 100)%Q) /\
  (forall p q a b,
      p <> q -> fraud_rings cands !! p = Some a -> fraud_rings cands !! q = Some b ->
      pattern_type (candidate a) = pattern_type (candidate b) ->
      (overlap (candidate a) (candidate b) <= 85 # 100)%Q) /\
  (forall i j a b,
      cands !! i = Some a -> cands !! j = Some b -> i <> j ->
      pattern_type a = pattern_type b -> (85 # 100 < overlap a b)%Q ->
      lower (j, b) (i, a) -> (j, b) ∉ survivors cands).
Proof.
  assert (Hdrop : forall i j a b,
      cands !! i = Some a -> cands !! j = Some b -> i <> j ->
      pattern_type a = pattern_type b -> (85 # 100 < overlap a b)%Q ->
      lower (j, b) (i, a) -> (j, b) ∉ survivors cands).
  { intros i j a b Hi Hj Hne Hty Hov Hlow Hin.
    apply survivor_iff in Hin. destruct Hin as [ _ Hno ].
    apply Hno. now exists i, a. }
  assert (Hkept : forall p q a b,
      p <> q -> dedup cands !! p = Some a -> dedup cands !! q = Some b ->
      pattern_type a = pattern_type b -> (overlap a b <= 85 # 100)%Q).
  { intros p q a b Hpq Hp Hq Hty.
    unfold dedup in Hp, Hq. rewrite list_lookup_fmap in Hp, Hq.
    destruct (survivors cands !! p) as [ [i a'] | ] eqn:Ep; [ | discriminate ].
    destruct (survivors cands !! q) as [ [j b'] | ] eqn:Eq; [ | discriminate ].
    simpl in Hp, Hq. injection Hp as ->. injection Hq as ->.
    assert (Hij : i <> j).
    { intros <-. apply Hpq.
      apply (NoDup_lookup _ p q i (survivors_positions_NoDup cands));
        rewrite list_lookup_fmap; [ now rewrite Ep | now rewrite Eq ]. }
    assert (Hia : (i, a) ∈ survivors cands) by (eapply list_elem_of_lookup_2; exact Ep).
    assert (Hjb : (j, b) ∈ survivors cands) by (eapply list_elem_of_lookup_2; exact Eq).
    apply Qnot_lt_le. intros Hov.
    pose proof (proj1 (proj1 (survivor_iff _ _ _) Hia)) as Hi.
    pose proof (proj1 (proj1 (survivor_iff _ _ _) Hjb)) as Hj.
    destruct (lower_total (i, a) (j, b) Hij) as [ Hlow | Hlow ].
    - exact (Hdrop i j a b Hi Hj Hij Hty Hov Hlow Hjb).
    - rewrite overlap_sym in Hov.
      exact (Hdrop j i b a Hj Hi (fun E => Hij (eq_sym E)) (eq_sym Hty) Hov Hlow Hia). }
  split; [ exact Hkept | ]. split; [ | exact Hdrop ].
  intros p q a b Hpq Hp Hq Hty.
  assert (Hperm : candidate <$> fraud_rings cands ≡ₚ dedup cands).
  { unfold fraud_rings. rewrite number_rings_candidates. apply StableSort.sort_perm. }
  apply Permutation_inj in Hperm as [ _ (f & Hinj & Hf) ].
  apply (Hkept (f p) (f q)); [ | | | exact Hty ].
  - intros E. apply Hpq. now apply Hinj.
  - rewrite <- Hf, list_lookup_fmap, Hp. reflexivity.
  - rewrite <- Hf, list_lookup_fmap, Hq. reflexivity.
Qed.

Lemma dedup_correct_witness :
  (overlap ring_b ring_a <= 85 # 100)%Q /\ (1%nat, ring_c) ∉ survivors [ring_a; ring_c].
Proof.
  split.
  - apply (proj1 (dedup_correct [ring_b; ring_c; ring_a]) 0%nat 1%nat ring_b ring_a);
      [ lia | vm_compute; reflexivity | vm_compute; reflexivity | reflexivity ].
  - apply (proj2 (proj2 (dedup_correct [ring_a; ring_c])) 0%nat 1%nat ring_a ring_c);
      [ reflexivity | reflexivity | lia | reflexivity | vm_compute; reflexivity | ].
    left. vm_compute. reflexivity.
Defined.




End Rings.

(* ================================================================== *)
(** ** JavaScript string helpers used by the components *)
(* ================================================================== *)

Module JS.

(** [s.replace(/_/g, ' ')] *)
Fixpoint replace_underscores (s : string) : string :=
  match s with
  | EmptyString => EmptyString
  | String c s' =>
      String (if Ascii.eqb c "_" then " "%char else c) (replace_underscores s')
  end.

(** [l.join(sep)] *)
Fixpoint join (sep : string) (l : list string) : string :=
  match l with
  | [] => EmptyString
  | [x] => x
  | x :: l' => String.append x (String.append sep (join sep l'))
  end.

(** [hay.startsWith(needle)] *)
Fixpoint starts_with (needle hay : string) : bool :=
  match needle, hay with
  | EmptyString, _ => true
  | String _ _, EmptyString => false
  | String a n', String b h' => Ascii.eqb a b && starts_with n' h'
  end.

(** [hay.includes(needle)]: [needle] occurs at some position of [hay]. *)
Fixpoint includes (hay needle : string) : bool :=
  starts_with needle hay ||
  match hay with
  | EmptyString => false
  | String _ h' => includes h' needle
  end.

(** [s.slice(n)] for a non-negative [n]: [s] without its first [n]
    characters. *)
Fixpoint drop_chars (n : nat) (s : string) : string :=
  match n, s with
  | O, _ => s
  | S n, String _ s' => drop_chars n s'
  | S _, EmptyString => EmptyString
  end.

(** [s.slice(-n)]: the last [n] characters of [s], all of [s] when it
    is shorter. *)
Definition slice_last (n : nat) (s : string) : string :=
  drop_chars (String.length s - n) s.

(** [s.endsWith(suffix)] *)
Definition ends_with (suffix s : string) : bool :=
  (String.length suffix <=? String.length s)%nat &&
  String.eqb (slice_last (String.length suffix) s) suffix.

(** Truthiness of an optional string: [undefined] and the empty string
    are falsy. *)
Definition truthy (s : option string) : bool :=
  match s with
  | Some (String _ _) => true
  | _ => false
  end.

(** [a || b] with a string [b]. *)
Definition or_else (a : option string) (b : string) : string :=
  match a with
  | Some (String c r) => String c r
  | _ => b
  end.

(** [needle] occurs in [hay] as a contiguous run of characters. *)
Definition occurs_in (needle hay : string) : Prop :=
  exists pre post, hay = String.append pre (String.append needle post).

Lemma starts_with_spec needle hay :
  starts_with needle hay = true <-> exists post, hay = String.append needle post.
Proof.
  revert hay. induction needle as [ | a n IH ]; intros hay; simpl.
  - split; [ intros _; now exists hay | reflexivity ].
  - destruct hay as [ | b h ].
    + split; [ discriminate | intros [ post E ]; discriminate ].
    + rewrite andb_true_iff, IH. split.
      * intros [ Hab [ post -> ] ]. apply Ascii.eqb_eq in Hab. subst. now exists post.
      * intros [ post E ]. injection E as -> ->. split; [ apply Ascii.eqb_refl | now exists post ].
Qed.

Lemma includes_spec hay needle :
  includes hay needle = true <-> occurs_in needle hay.
Proof.
  unfold occurs_in. induction hay as [ | b h IH ]; simpl.
  - rewrite orb_false_r, starts_with_spec. split.
    + intros [ post E ]. now exists EmptyString, post.
    + intros (pre & post & E). destruct pre; [ now exists post | discriminate ].
  - rewrite orb_true_iff, starts_with_spec, IH. split.
    + intros [ [ post E ] | (pre & post & E) ].
      * now exists EmptyString, post.
      * exists (String b pre), post. simpl. now rewrite E.
    + intros (pre & post & E). destruct pre as [ | c pre ]; simpl in E.
      * left. now exists post.
      * right. injection E as _ E. now exists pre, post.
Qed.

(** Facts about string concatenation. *)

Lemma append_cons c s k : String.append (String c s) k = String c (String.append s k).
Proof. reflexivity. Qed.

Lemma append_nil_l k : String.append EmptyString k = k.
Proof. reflexivity. Qed.

Lemma append_nil_r s : String.append s EmptyString = s.
Proof.
  induction s as [ | c s IH ]; [ reflexivity | ].
  change (String c (String.append s EmptyString) = String c s). now f_equal.
Qed.

Lemma append_assoc a b c :
  String.append (String.append a b) c = String.append a (String.append b c).
Proof.
  induction a as [ | x a IH ]; [ reflexivity | ].
  change (String x (String.append (String.append a b) c)
          = String x (String.append a (String.append b c))).
  now f_equal.
Qed.

Lemma length_append a b :
  String.length (String.append a b) = (String.length a + String.length b)%nat.
Proof.
  induction a as [ | x a IH ]; [ reflexivity | ].
  change (S (String.length (String.append a b)) = S (String.length a + String.length b)).
  now f_equal.
Qed.

(** *** Slices and suffixes *)

Lemma drop_chars_append a b : drop_chars (String.length a) (String.append a b) = b.
Proof. induction a as [ | c a IH ]; [ reflexivity | exact IH ]. Qed.

Lemma drop_chars_split n s :
  (n <= String.length s)%nat ->
  exists pre, s = String.append pre (drop_chars n s) /\ String.length pre = n.
Proof.
  revert s. induction n as [ | n IH ]; intros s Hn.
  - now exists EmptyString.
  - destruct s as [ | c s ]; [ simpl in Hn; lia | ].
    destruct (IH s) as (pre & E & Hl); [ simpl in Hn; lia | ].
    exists (String c pre). split; [ | simpl; now rewrite Hl ].
    rewrite append_cons. cbn [drop_chars]. now rewrite <- E.
Qed.

Lemma drop_chars_length n s :
  String.length (drop_chars n s) = (String.length s - n)%nat.
Proof.
  revert s. induction n as [ | n IH ]; intros s; [ simpl; lia | ].
  destruct s as [ | c s ]; [ reflexivity | ]. cbn [drop_chars String.length].
  rewrite IH. lia.
Qed.

Lemma ends_with_spec suffix s :
  ends_with suffix s = true <-> exists stem, s = String.append stem suffix.
Proof.
  unfold ends_with, slice_last. rewrite andb_true_iff, Nat.leb_le, String.eqb_eq. split.
  - intros [ Hl E ].
    destruct (drop_chars_split (String.length s - String.length suffix) s) as (pre & Hs & _);
      [ lia | ].
    exists pre. rewrite E in Hs. exact Hs.
  - intros [ stem -> ]. rewrite length_append. split; [ lia | ].
    replace (String.length stem + String.length suffix - String.length suffix)%nat
      with (String.length stem) by lia.
    apply drop_chars_append.
Qed.

(** *** Replacing underscores *)

Lemma replace_underscores_length s :
  String.length (replace_underscores s) = String.length s.
Proof. induction s as [ | c s IH ]; simpl; [ reflexivity | now rewrite IH ]. Qed.

Lemma includes_single hay c :
  includes hay (String c EmptyString) = false <->
  (forall pre post, hay <> String.append pre (String c post)).
Proof.
  split.
  - intros H pre post E.
    assert (Hin : includes hay (String c EmptyString) = true).
    { apply includes_spec. exists pre, post. now rewrite append_cons, append_nil_l. }
    rewrite H in Hin. discriminate.
  - intros H. destruct (includes hay (String c EmptyString)) eqn:E; [ | reflexivity ].
    apply includes_spec in E as (pre & post & E).
    rewrite append_cons, append_nil_l in E. now destruct (H pre post).
Qed.

Lemma replace_underscores_clean s :
  includes (replace_underscores s) "_" = false.
Proof.
  induction s as [ | c s IH ]; [ reflexivity | ].
  cbn [replace_underscores includes starts_with]. rewrite IH.
  destruct (Ascii.eqb c "_") eqn:E; [ reflexivity | ].
  rewrite Ascii.eqb_sym, E. reflexivity.
Qed.

(** X5.  [s.replace(/_/g, ' ')] keeps the length of [s], leaves no
    underscore, changes nothing else (a second application does
    nothing), and returns [s] itself exactly when [s] has no
    underscore. *)
Theorem replace_underscores_spec (s : string) :
  String.length (replace_underscores s) = String.length s /\
  includes (replace_underscores s) "_" = false /\
  replace_underscores (replace_underscores s) = replace_underscores s /\
  (replace_underscores s = s <-> includes s "_" = false).
Proof.
  split; [ apply replace_underscores_length | ].
  pose proof replace_underscores_clean as Hno.
  assert (Hid : forall t, includes t "_" = false -> replace_underscores t = t).
  { induction t as [ | c t IH ]; [ reflexivity | ].
    cbn [replace_underscores includes starts_with]. rewrite orb_false_iff, andb_true_r.
    intros [ Hc Ht ]. rewrite Ascii.eqb_sym, Hc. now rewrite (IH Ht). }
  split; [ apply Hno | ]. split; [ apply Hid, Hno | ].
  split; [ intros E; rewrite <- E; apply Hno | apply Hid ].
Qed.

End JS.

(* ================================================================== *)
(** ** RingPanel.jsx *)
(* ================================================================== *)

Module RingPanel.

(** An element of the report's [fraud_rings] array. *)
Record Ring := {
  ring_id : string;
  pattern_type : string;
  member_accounts : list string;
  risk_score : Q
}.

(** The comparator [(a, b) => b.risk_score - a.risk_score]. *)
Definition compare_rings (a b : Ring) : Q := (risk_score b - risk_score a)%Q.

(** [Array.prototype.sort] is stable: [a] stays ahead of a later [b]
    unless the comparator is positive. *)
Definition before (a b : Ring) : bool := Qle_bool (compare_rings a b) 0.

(** [const sorted = [...rings].sort((a, b) => b.risk_score - a.risk_score)] *)
Definition sorted (rings : list Ring) : list Ring := StableSort.sort before rings.

Inductive ScoreClass := high | med | low.

(** [s >= 80 ? styles.high : s >= 55 ? styles.med : styles.low] *)
Definition scoreClass (s : Q) : ScoreClass :=
  if Qle_bool 80 s then high else if Qle_bool 55 s then med else low.

(** One card of the list.  The card keeps the score the text
    [toFixed(1)] is made from and the pattern name with its underscores
    replaced; the pattern icon and the expanded member list of the
    active card are left out. *)
Record Card := {
  key : string;
  score : Q;
  score_class : ScoreClass;
  pattern_text : string;
  member_count : nat;
  members_text : string
}.

Definition card_of (ring : Ring) : Card :=
  {| key := ring_id ring;
     score := risk_score ring;
     score_class := scoreClass (risk_score ring);
     pattern_text := JS.replace_underscores (pattern_type ring);
     member_count := length (member_accounts ring);
     members_text := JS.join ", " (member_accounts ring) |}.

(** The panel: the badge counts the rings, the list shows one card per
    ring in sorted order (an empty list shows the placeholder line). *)
Record Panel := { badge : nat; cards : list Card }.

Definition render (rings : list Ring) : Panel :=
  {| badge := length rings; cards := card_of <$> sorted rings |}.

(** The state [active] of the panel, [None] for [null]: a click on a
    card runs [setActive(active === ring.ring_id ? null : ring.ring_id)]. *)
Definition click (active : option string) (id : string) : option string :=
  if bool_decide (active = Some id) then None else Some id.

(** [active === ring.ring_id]: the card is marked active and shows its
    member list. *)
Definition expanded (active : option string) (c : Card) : bool :=
  bool_decide (active = Some (key c)).

(** Risk scores never increase along the list. *)
Definition risk_descending (rings : list Ring) : Prop :=
  Sorted (fun a b => (risk_score b <= risk_score a)%Q) rings.

(** The list the consolidator emits, as the panel receives it. *)
Definition pattern_name (p : Rings.PatternType) : string :=
  match p with
  | Rings.cycle => "cycle"
  | Rings.smurfing => "smurfing"
  | Rings.shell_network => "shell_network"
  end.

Definition of_report (r : Rings.Ring) : Ring :=
  {| ring_id := Rings.ring_id r;
     pattern_type := pattern_name (Rings.pattern_type (Rings.candidate r));
     member_accounts := Rings.member_accounts (Rings.candidate r);
     risk_score := Rings.risk_score (Rings.candidate r) |}.

(** A report with three rings, two of them with equal scores. *)
Definition sample_rings : list Ring :=
  [ {| ring_id := "R001"; pattern_type := "cycle";
       member_accounts := ["A"; "B"; "C"]; risk_score := 95 |};
    {| ring_id := "R002"; pattern_type := "shell_network";
       member_accounts := ["P"; "Q"; "R"; "S"]; risk_score := 60 |};
    {| ring_id := "R003"; pattern_type := "smurfing";
       member_accounts := ["H"]; risk_score := 60 |} ]%string.

Lemma before_spec a b : before a b = true <-> (risk_score b <= risk_score a)%Q.
Proof.
  unfold before, compare_rings. rewrite Qle_bool_iff. split; intros H; lra.
Qed.

Lemma risk_descending_ahead rings :
  risk_descending rings -> Sorted (StableSort.ahead before) rings.
Proof.
  induction 1 as [ | a l Hs IH Hh ]; constructor; [ exact IH | ].
  destruct Hh; constructor. now apply before_spec.
Qed.

Lemma sorted_perm rings : Permutation (sorted rings) rings.
Proof. apply StableSort.sort_perm. Qed.

Lemma sorted_descending rings : risk_descending (sorted rings).
Proof.
  assert (H : Sorted (StableSort.ahead before) (sorted rings)).
  { apply StableSort.sort_sorted. intros x y Hxy.
    apply before_spec. destruct (before x y) eqn:E; [ discriminate | ].
    destruct (Qlt_le_dec (risk_score x) (risk_score y)) as [ Hlt | Hle ].
    - now apply Qlt_le_weak.
    - apply before_spec in Hle. congruence. }
  unfold risk_descending. induction H as [ | a l Hs IH Hh ]; constructor; [ exact IH | ].
  destruct Hh; constructor. now apply before_spec.
Qed.

(** The consolidator's list meets the panel's expectation: its risk
    scores never increase. *)
Lemma report_risk_descending cands :
  risk_descending (of_report <$> Rings.fraud_rings cands).
Proof.
  unfold risk_descending.
  apply (Sorted_fmap of_report
           (fun a b => (Rings.risk_score (Rings.candidate b)
                        <= Rings.risk_score (Rings.candidate a))%Q)).
  { intros x y H. exact H. }
  apply (Sorted_fmap_inv Rings.candidate
           (fun a b => (Rings.risk_score b <= Rings.risk_score a)%Q)).
  unfold Rings.fraud_rings. rewrite Rings.number_rings_candidates.
  assert (H : Sorted (StableSort.ahead Rings.ranked_before)
                (StableSort.sort Rings.ranked_before (Rings.dedup cands)))
    by apply StableSort.sort_sorted, Rings.ranked_before_total.
  induction H as [ | a l Hs IH Hh ]; constructor; [ exact IH | ].
  destruct Hh as [ | b l Hab ]; constructor.
  now apply Rings.ranked_before_spec in Hab as [ Hab _ ].
Qed.

(** C5.  On a list whose risk scores never increase, the stable sort by
    descending risk score gives the list back, so the cards appear in
    the order of the report's list. *)
Theorem sorted_keeps_report_order (rings : list Ring) :
  risk_descending rings ->
  sorted rings = rings /\
  key <$> cards (render rings) = ring_id <$> rings.
Proof.
  intros H.
  assert (E : sorted rings = rings).
  { apply StableSort.sort_sorted_id. now apply risk_descending_ahead. }
  split; [ exact E | ].
  unfold render; simpl. rewrite E, <- list_fmap_compose. reflexivity.
Qed.

(** An unsorted list is put in descending order, equal scores keeping
    their input order. *)
Example sorted_sample :
  ring_id <$> sorted (rev sample_rings) = ["R001"; "R003"; "R002"]%string.
Proof. vm_compute. reflexivity. Qed.

Lemma sorted_keeps_report_order_witness :
  sorted sample_rings = sample_rings /\
  key <$> cards (render sample_rings) = ["R001"; "R002"; "R003"]%string.
Proof.
  apply (sorted_keeps_report_order sample_rings).
  unfold risk_descending, sample_rings.
  repeat constructor; unfold Qle; simpl; lia.
Defined.

(** *** The sort on any list, the cards and the active card *)

(** X1.  Whatever the order of the rings it is given, the panel lists
    them all, each once, with risk scores that never increase, and rings
    of equal risk score in the order the report had them. *)
Theorem sorted_is_stable_sort (rings : list Ring) :
  Permutation (sorted rings) rings /\
  risk_descending (sorted rings) /\
  (forall q : Q,
      List.filter (fun r => Qeq_bool (risk_score r) q) (sorted rings)
      = List.filter (fun r => Qeq_bool (risk_score r) q) rings).
Proof.
  split; [ apply sorted_perm | ]. split; [ apply sorted_descending | ].
  intros q. apply StableSort.sort_stable. intros x y Hx Hy.
  apply Qeq_bool_iff in Hx, Hy. apply before_spec. rewrite Hx, Hy. apply Qle_refl.
Qed.

Lemma render_keys rings :
  Permutation (key <$> cards (render rings)) (ring_id <$> rings).
Proof.
  cbn [render cards]. rewrite <- list_fmap_compose.
  change (key ∘ card_of) with ring_id. apply fmap_Permutation, sorted_perm.
Qed.

(** X2.  The panel has one card per ring of the report, as many as the
    badge says; it shows no card exactly when the report has no ring;
    and the keys of the cards are the ring ids, so they are distinct when
    the ring ids are. *)
Theorem render_cards (rings : list Ring) :
  length (cards (render rings)) = badge (render rings) /\
  (cards (render rings) = [] <-> rings = []) /\
  Permutation (key <$> cards (render rings)) (ring_id <$> rings) /\
  (NoDup (ring_id <$> rings) -> NoDup (key <$> cards (render rings))).
Proof.
  pose proof (render_keys rings) as Hk.
  assert (Hl : length (cards (render rings)) = length rings).
  { cbn [render cards]. rewrite length_fmap. apply Permutation_length, sorted_perm. }
  split; [ exact Hl | ]. split; [ | split; [ exact Hk | ] ].
  - split; intros E.
    + rewrite E in Hl. destruct rings; [ reflexivity | discriminate ].
    + subst rings. reflexivity.
  - intros Hnd. now rewrite Hk.
Qed.

Lemma render_cards_witness : NoDup (key <$> cards (render sample_rings)).
Proof.
  apply (render_cards sample_rings).
  apply (bool_decide_unpack (NoDup (ring_id <$> sample_rings))). vm_compute. exact I.
Defined.

Lemma expanded_at_most_one active (cs : list Card) :
  NoDup (key <$> cs) -> (length (List.filter (expanded active) cs) <= 1)%nat.
Proof.
  induction cs as [ | c cs IH ]; intros Hnd; [ simpl; lia | ].
  cbn [fmap list_fmap] in Hnd. apply NoDup_cons in Hnd as [ Hc Hnd ].
  cbn [List.filter]. destruct (expanded active c) eqn:E; [ | now apply IH ].
  assert (Hnone : List.filter (expanded active) cs = []).
  { apply bool_decide_eq_true in E.
    clear IH Hnd. induction cs as [ | d cs IH ]; [ reflexivity | ].
    cbn [fmap list_fmap] in Hc. rewrite not_elem_of_cons in Hc. destruct Hc as [ Hd Hc ].
    cbn [List.filter]. destruct (expanded active d) eqn:Ed; [ | now apply IH ].
    apply bool_decide_eq_true in Ed. congruence. }
  rewrite Hnone. simpl. lia.
Qed.

(** X3.  A click on a card collapses it if it was the active card and
    makes it the active card otherwise, so after a click no other card
    is active; a second click on the same card leaves it active only if
    it was active before the first; and when the ring ids are distinct at
    most one card is active at a time. *)
Theorem click_active_card (active : option string) (id : string) :
  (click active id = None <-> active = Some id) /\
  (forall c, expanded (click active id) c = true <-> key c = id /\ active <> Some id) /\
  click (click active id) id = (if bool_decide (active = Some id) then Some id else None) /\
  (forall rings,
      NoDup (ring_id <$> rings) ->
      (length (List.filter (expanded active) (cards (render rings))) <= 1)%nat).
Proof.
  unfold click, expanded. repeat split.
  - destruct (bool_decide (active = Some id)) eqn:E; [ | discriminate ].
    intros _. now apply bool_decide_eq_true in E.
  - intros ->. now rewrite bool_decide_eq_true_2.
  - destruct (bool_decide (active = Some id)) eqn:E;
      rewrite bool_decide_eq_true in H; congruence.
  - destruct (bool_decide (active = Some id)) eqn:E.
    + rewrite bool_decide_eq_true in H. discriminate.
    + apply bool_decide_eq_false in E. exact E.
  - intros [ <- Hne ]. rewrite (bool_decide_eq_false_2 _ Hne).
    now apply bool_decide_eq_true.
  - destruct (bool_decide (active = Some id)) eqn:E.
    + now rewrite bool_decide_eq_false_2.
    + now rewrite bool_decide_eq_true_2.
  - intros rings Hnd. apply expanded_at_most_one. now rewrite render_keys.
Qed.

Lemma click_active_card_witness :
  (length (List.filter (expanded (click None "R002")) (cards (render sample_rings))) <= 1)%nat.
Proof.
  apply (click_active_card (click None "R002") "R002").
  apply (bool_decide_unpack (NoDup (ring_id <$> sample_rings))). vm_compute. exact I.
Defined.

End RingPanel.

(* ================================================================== *)
(** ** AccountsTable.jsx *)
(* ================================================================== *)

Module AccountsTable.

(** An element of the report's [suspicious_accounts] array. *)
Record Account := {
  account_id : string;
  suspicion_score : Z;
  ring_id : option string;
  detected_patterns : list string
}.

(** The three tag classes of the style sheet. *)
Inductive TagStyle := tagCycle | tagSmurf | tagShell.

(** [p.includes('cycle')], then [p.includes('fan') ||
    p.includes('velocity') || p.includes('smurf')], then the shell class. *)
Definition TAG_CLASS (p : string) : TagStyle :=
  if JS.includes p "cycle" then tagCycle
  else if JS.includes p "fan" || JS.includes p "velocity" || JS.includes p "smurf"
       then tagSmurf
       else tagShell.

Inductive BarColor := danger | warn | safe.

(** [score >= 80 ? 'var(--danger)' : score >= 55 ? 'var(--warn)' : 'var(--safe)'] *)
Definition barColor (score : Z) : BarColor :=
  if 80 <=? score then danger else if 55 <=? score then warn else safe.

(** One pattern tag: its key, its class and its text
    [p.replace(/_/g, ' ')]. *)
Record Tag := { tag_key : string; tag_class : TagStyle; tag_text : string }.

Definition tag_of (p : string) : Tag :=
  {| tag_key := p; tag_class := TAG_CLASS p; tag_text := JS.replace_underscores p |}.

(** One table row: the account id, the score bar (width in percent and
    colour), the score, the ring and the pattern tags. *)
Record Row := {
  row_key : string;
  row_account : string;
  bar_width : Z;
  bar_color : BarColor;
  row_score : Z;
  row_ring : option string;
  row_tags : list Tag
}.

Definition row_of (acc : Account) : Row :=
  let score := suspicion_score acc in
  {| row_key := account_id acc;
     row_account := account_id acc;
     bar_width := score;
     bar_color := barColor score;
     row_score := score;
     row_ring := ring_id acc;
     row_tags := tag_of <$> detected_patterns acc |}.

(** The table: the badge shows the number of accounts, the body the
    rows. *)
Record Panel := { badge : nat; rows : list Row }.

(** The component; [None] as argument is an absent [accounts] prop,
    [None] as result is the [null] render. *)
Definition AccountsTable (accounts : option (list Account)) : option Panel :=
  match accounts with
  | None => None
  | Some l =>
      if (length l =? 0)%nat then None
      else Some {| badge := length l; rows := row_of <$> take 100 l |}
  end.

(** The report contract on [suspicious_accounts]: descending score,
    ties by ascending account id. *)
Definition ranked (a b : Account) : Prop :=
  suspicion_score b < suspicion_score a \/
  (suspicion_score a = suspicion_score b /\
   String.leb (account_id a) (account_id b) = true).

#[global] Instance ranked_dec : RelDecision ranked.
Proof. intros a b. unfold ranked. apply _. Defined.

(** A report with 101 accounts: scores fall from 100 in steps of one
    half, rounded down, and the ids ascend. *)
Fixpoint repeat_a (n : nat) : string :=
  match n with
  | O => EmptyString
  | S n => String "a" (repeat_a n)
  end.

Definition sample_account (i : nat) : Account :=
  {| account_id := repeat_a (S i);
     suspicion_score := 100 - Z.of_nat i / 2;
     ring_id := None;
     detected_patterns := ["cycle_length_3"; "amount_decay"]%string |}.

Definition sample_accounts : list Account := sample_account <$> seq 0 101.

Lemma ranked_trans a b c : ranked a b -> ranked b c -> ranked a c.
Proof.
  unfold ranked. intros [ Hab | [ Eab Lab ] ] [ Hbc | [ Ebc Lbc ] ].
  - left. lia.
  - left. lia.
  - left. lia.
  - right. split; [ congruence | ].
    eapply StringOrder.leb_trans; [ exact Lab | exact Lbc ].
Qed.

Lemma take_drop_ranked n (l : list Account) shown hidden :
  Sorted ranked l -> shown ∈ take n l -> hidden ∈ drop n l -> ranked shown hidden.
Proof.
  intros Hs Hshown Hhidden.
  apply Sorted_StronglySorted in Hs; [ | intros x y z; apply ranked_trans ].
  apply list_elem_of_lookup in Hshown as [ i Hi ].
  apply list_elem_of_lookup in Hhidden as [ j Hj ].
  assert (Hlt : (i < n)%nat).
  { apply lookup_lt_Some in Hi. rewrite length_take in Hi. lia. }
  rewrite lookup_take_lt in Hi by exact Hlt. rewrite lookup_drop in Hj.
  apply (StronglySorted_lookup ranked l i (n + j) shown hidden Hs); [ lia | exact Hi | exact Hj ].
Qed.

(** C6.  An absent or empty list renders nothing; otherwise the table
    has one row for each of the first min(100, n) accounts, in list
    order: the row at position [i] has the id of the account at
    position [i] as key and as text, its score as number and as width
    of the bar, its ring and one tag per detected pattern; and when the
    list is in report order (descending score, ties by ascending id) no
    account left out of the table scores higher than a row shown in
    it. *)
Theorem accounts_table_rows (accounts : option (list Account)) :
  (accounts = None \/ accounts = Some [] -> AccountsTable accounts = None) /\
  (forall l, accounts = Some l -> l <> [] ->
     exists panel,
       AccountsTable accounts = Some panel /\
       badge panel = length l /\
       rows panel = row_of <$> take 100 l /\
       length (rows panel) = Nat.min 100 (length l) /\
       (forall i, (i < Nat.min 100 (length l))%nat ->
                  rows panel !! i = row_of <$> l !! i) /\
       (forall i, (i < Nat.min 100 (length l))%nat ->
          exists acc row,
            l !! i = Some acc /\ rows panel !! i = Some row /\
            row_key row = account_id acc /\
            row_account row = account_id acc /\
            row_score row = suspicion_score acc /\
            bar_width row = suspicion_score acc /\
            bar_color row = barColor (suspicion_score acc) /\
            row_ring row = ring_id acc /\
            tag_key <$> row_tags row = detected_patterns acc) /\
       (forall row, row ∈ rows panel ->
          exists acc, acc ∈ take 100 l /\
                      row_account row = account_id acc /\
                      row_score row = suspicion_score acc) /\
       (Sorted ranked l ->
        forall row hidden,
          row ∈ rows panel -> hidden ∈ drop 100 l ->
          suspicion_score hidden <= row_score row)).
Proof.
  split.
  - intros [ -> | -> ]; reflexivity.
  - intros l -> Hne. unfold AccountsTable.
    assert (E : (length l =? 0)%nat = false).
    { apply Nat.eqb_neq. destruct l; [ contradiction | discriminate ]. }
    rewrite E. eexists. split; [ reflexivity | ]. cbn [rows badge].
    assert (Hrow : forall row, row ∈ row_of <$> take 100 l ->
              exists acc, acc ∈ take 100 l /\
                          row_account row = account_id acc /\
                          row_score row = suspicion_score acc).
    { intros row Hr. apply list_elem_of_fmap in Hr as (acc & -> & Hacc).
      exists acc. now repeat split. }
    split; [ reflexivity | ]. split; [ reflexivity | ].
    split; [ rewrite length_fmap, length_take; reflexivity | ].
    split; [ | split; [ | split; [ exact Hrow | ] ] ].
    + intros i Hi. rewrite list_lookup_fmap, lookup_take_lt by lia. reflexivity.
    + intros i Hi. destruct (lookup_lt_is_Some_2 l i) as [ acc Hacc ]; [ lia | ].
      exists acc, (row_of acc). split; [ exact Hacc | ].
      split; [ rewrite list_lookup_fmap, lookup_take_lt, Hacc by lia; reflexivity | ].
      cbn [row_of row_key row_account row_score bar_width bar_color row_ring row_tags].
      repeat split. rewrite <- list_fmap_compose. apply list_fmap_id.
    + intros Hs row hidden Hr Hhidden.
      destruct (Hrow row Hr) as (shown & Hshown & _ & ->).
      destruct (take_drop_ranked 100 _ shown hidden Hs Hshown Hhidden) as [ H | [ H _ ] ]; lia.
Qed.

(** C10.  [TAG_CLASS] gives the cycle style exactly to tags containing
    "cycle"; among the others the smurfing style exactly to tags
    containing "fan", "velocity" or "smurf"; and the shell style to the
    rest, among them temporal_burst_72h, temporal_burst_week and
    amount_decay. *)
Theorem TAG_CLASS_spec (p : string) :
  (TAG_CLASS p = tagCycle <-> JS.occurs_in "cycle" p) /\
  (TAG_CLASS p = tagSmurf <->
     ~ JS.occurs_in "cycle" p /\
     (JS.occurs_in "fan" p \/ JS.occurs_in "velocity" p \/ JS.occurs_in "smurf" p)) /\
  (TAG_CLASS p = tagShell <->
     ~ JS.occurs_in "cycle" p /\
     ~ (JS.occurs_in "fan" p \/ JS.occurs_in "velocity" p \/ JS.occurs_in "smurf" p)) /\
  TAG_CLASS "temporal_burst_72h" = tagShell /\
  TAG_CLASS "temporal_burst_week" = tagShell /\
  TAG_CLASS "amount_decay" = tagShell.
Proof.
  assert (Hc := JS.includes_spec p "cycle").
  assert (Hf := JS.includes_spec p "fan").
  assert (Hv := JS.includes_spec p "velocity").
  assert (Hs := JS.includes_spec p "smurf").
  unfold TAG_CLASS.
  destruct (JS.includes p "cycle"), (JS.includes p "fan"),
    (JS.includes p "velocity"), (JS.includes p "smurf"); simpl;
    (repeat split; try reflexivity; try discriminate; intuition (try discriminate)).
Qed.


Example tag_classes :
  TAG_CLASS <$> ["cycle_length_4"; "fan_in_hub"; "high_velocity"; "shell_chain_member"]%string
  = [tagCycle; tagSmurf; tagSmurf; tagShell].
Proof. vm_compute. reflexivity. Qed.

Example sample_table_size :
  (fun panel => (badge panel, length (rows panel))) <$> AccountsTable (Some sample_accounts)
  = Some (101%nat, 100%nat).
Proof. vm_compute. reflexivity. Qed.

Lemma accounts_table_rows_witness :
  AccountsTable None = None /\
  exists panel,
    AccountsTable (Some sample_accounts) = Some panel /\
    badge panel = 101%nat /\
    length (rows panel) = 100%nat /\
    (exists row,
        rows panel !! 2%nat = Some row /\
        row_key row = "aaa"%string /\ row_account row = "aaa"%string /\
        row_score row = 99 /\ bar_width row = 99 /\ bar_color row = danger /\
        row_ring row = None /\
        tag_key <$> row_tags row = ["cycle_length_3"; "amount_decay"]%string) /\
    (forall row hidden,
        row ∈ rows panel -> hidden ∈ drop 100 sample_accounts ->
        suspicion_score hidden <= row_score row).
Proof.
  split.
  - apply (proj1 (accounts_table_rows None)). now left.
  - destruct (proj2 (accounts_table_rows (Some sample_accounts)) sample_accounts eq_refl)
      as (panel & H1 & H2 & _ & H3 & _ & H4 & _ & H5); [ discriminate | ].
    exists panel. split; [ exact H1 | ]. split; [ exact H2 | ]. split; [ exact H3 | ].
    split.
    + destruct (H4 2%nat) as (acc & row & Hacc & Hr & K1 & K2 & K3 & K4 & K5 & K6 & K7);
        [ vm_compute; lia | ].
      injection Hacc as <-. exists row. now repeat split.
    + apply H5. apply (bool_decide_unpack (Sorted ranked sample_accounts)).
      vm_compute. exact I.
Defined.

(** *** Score bands, keys and tags *)

Lemma Qle_bool_inject a z : Qle_bool (inject_Z a) (inject_Z z) = (a <=? z).
Proof.
  destruct (a <=? z) eqn:E.
  - apply Qle_bool_iff. rewrite <- Zle_Qle. now apply Z.leb_le.
  - destruct (Qle_bool (inject_Z a) (inject_Z z)) eqn:E'; [ | reflexivity ].
    apply Qle_bool_iff in E'. rewrite <- Zle_Qle in E'. apply Z.leb_le in E'. congruence.
Qed.

(** X4.  The colour of an account's score bar is decided by the two
    thresholds 80 and 55, and it is the band RingPanel gives a ring of
    the same score: danger with high, warn with med, safe with low. *)
Theorem score_bands (score : Z) :
  (barColor score = danger <-> 80 <= score) /\
  (barColor score = warn <-> 55 <= score < 80) /\
  (barColor score = safe <-> score < 55) /\
  (RingPanel.scoreClass (inject_Z score) = RingPanel.high <-> barColor score = danger) /\
  (RingPanel.scoreClass (inject_Z score) = RingPanel.med <-> barColor score = warn) /\
  (RingPanel.scoreClass (inject_Z score) = RingPanel.low <-> barColor score = safe).
Proof.
  unfold barColor, RingPanel.scoreClass.
  change 80%Q with (inject_Z 80). change 55%Q with (inject_Z 55).
  rewrite !Qle_bool_inject.
  destruct (80 <=? score) eqn:E1; destruct (55 <=? score) eqn:E2;
    rewrite ?Z.leb_le, ?Z.leb_gt in E1, E2;
    repeat split; intros; try discriminate; try reflexivity; try lia.
Qed.

(** X6.  The rows are keyed by the account ids of the first hundred
    accounts, so the keys are distinct when the report's account ids
    are; and each row has one tag per detected pattern, keyed by the
    pattern and showing it without underscores. *)
Theorem table_keys (l : list Account) (panel : Panel) :
  AccountsTable (Some l) = Some panel ->
  row_key <$> rows panel = take 100 (account_id <$> l) /\
  (NoDup (account_id <$> l) -> NoDup (row_key <$> rows panel)) /\
  Forall (fun row =>
            exists acc, In acc l /\
              tag_key <$> row_tags row = detected_patterns acc /\
              Forall (fun t => JS.includes (tag_text t) "_" = false) (row_tags row))
         (rows panel).
Proof.
  unfold AccountsTable. destruct (length l =? 0)%nat; [ discriminate | ].
  intros [= <-]. cbn [rows].
  assert (Hk : row_key <$> (row_of <$> take 100 l) = take 100 (account_id <$> l)).
  { rewrite <- list_fmap_compose, fmap_take. reflexivity. }
  split; [ exact Hk | ]. split.
  - intros Hnd. rewrite Hk. eapply sublist_NoDup; [ exact Hnd | apply sublist_take ].
  - rewrite Forall_forall. intros row Hrow.
    apply list_elem_of_fmap in Hrow as (acc & -> & Hacc).
    exists acc. split; [ | split ].
    + apply list_elem_of_In. eapply elem_of_sublist; [ exact Hacc | apply sublist_take ].
    + cbn [row_of row_tags]. rewrite <- list_fmap_compose. apply list_fmap_id.
    + cbn [row_of row_tags]. rewrite Forall_forall. intros t Ht.
      apply list_elem_of_fmap in Ht as (pat & -> & _). cbn [tag_of tag_text].
      apply JS.replace_underscores_clean.
Qed.

Lemma table_keys_witness :
  NoDup (row_key <$> (row_of <$> take 100 sample_accounts)).
Proof.
  destruct (table_keys sample_accounts
              {| badge := length sample_accounts;
                 rows := row_of <$> take 100 sample_accounts |} eq_refl) as (_ & H & _).
  apply H.
  apply (bool_decide_unpack (NoDup (account_id <$> sample_accounts))). vm_compute. exact I.
Defined.

End AccountsTable.

(* ================================================================== *)
(** ** StatsStrip.jsx *)
(* ================================================================== *)

Module StatsStrip.

Section Strip.
(** The numbers of the host and their two text forms: the default one
    used by template literals ([`${n}`]) and the locale one
    ([n.toLocaleString()]).  Both depend on the host, so the component
    is modelled over any pair of them. *)
Context {Num : Type} (toString toLocaleString : Num -> string).

(** What a card shows as its value: a string, a number passed to the
    renderer as it is, or nothing ([undefined]). *)
Inductive Value := Text (s : string) | Number (n : Num) | Nothing.

Record Card := { label : string; value : Value; sub : string; accent : string }.

(** [`${x}`] for a field that may be missing. *)
Definition interpolate (x : option Num) : string :=
  match x with
  | Some n => toString n
  | None => "undefined"
  end.

(** [x?.toLocaleString()] *)
Definition locale (x : option Num) : Value :=
  match x with
  | Some n => Text (toLocaleString n)
  | None => Nothing
  end.

(** A field handed to the renderer as it is. *)
Definition plain (x : option Num) : Value :=
  match x with
  | Some n => Number n
  | None => Nothing
  end.

(** The [summary] prop: an object whose fields are numbers. *)
Definition cards (summary : gmap string Num) : list Card :=
  [ {| label := "Total Accounts";
       value := locale (summary !! "total_accounts_analyzed");
       sub := String.append (interpolate (summary !! "total_transactions")) " transactions";
       accent := "ok" |};
    {| label := "Suspicious Accounts";
       value := plain (summary !! "suspicious_accounts_flagged");
       sub := "Flagged by algorithms";
       accent := "warn" |};
    {| label := "Fraud Rings Detected";
       value := plain (summary !! "fraud_rings_detected");
       sub := String.append (interpolate (summary !! "cycles_found"))
                (String.append " cycles · "
                   (String.append (interpolate (summary !! "smurfing_hubs_found"))
                      " smurfing hubs"));
       accent := "danger" |};
    {| label := "Processing Time";
       value := Text (String.append (interpolate (summary !! "processing_time_seconds")) "s");
       sub := "Graph traversal complete";
       accent := "default" |} ].

(** The strip: one element per card, keyed by its index. *)
Definition StatsStrip (summary : gmap string Num) : list (nat * Card) :=
  imap (fun i c => (i, c)) (cards summary).

Definition contract_fields : list string :=
  [ "total_accounts_analyzed"; "total_transactions"; "suspicious_accounts_flagged";
    "fraud_rings_detected"; "cycles_found"; "smurfing_hubs_found";
    "processing_time_seconds" ].

(** Two summaries agree on the seven fields of the contract. *)
Definition agree (s1 s2 : gmap string Num) : Prop :=
  Forall (fun k => s1 !! k = s2 !! k) contract_fields.

Lemma cards_agree s1 s2 : agree s1 s2 -> cards s1 = cards s2.
Proof.
  unfold agree, contract_fields. rewrite !Forall_cons.
  intros (H1 & H2 & H3 & H4 & H5 & H6 & H7 & _).
  unfold cards. now rewrite H1, H2, H3, H4, H5, H6, H7.
Qed.

(** C7.  For a summary holding the seven contract fields the strip
    renders exactly four cards, keyed 0 to 3: accounts analysed in
    locale form, accounts flagged, rings detected, and the processing
    time followed by "s", with captions built from the transaction,
    cycle and smurfing-hub counts; and two summaries that agree on the
    seven fields render the same strip. *)
Theorem stats_strip_cards (summary : gmap string Num) (a t f r c h p : Num) :
  summary !! "total_accounts_analyzed" = Some a ->
  summary !! "total_transactions" = Some t ->
  summary !! "suspicious_accounts_flagged" = Some f ->
  summary !! "fraud_rings_detected" = Some r ->
  summary !! "cycles_found" = Some c ->
  summary !! "smurfing_hubs_found" = Some h ->
  summary !! "processing_time_seconds" = Some p ->
  length (StatsStrip summary) = 4%nat /\
  StatsStrip summary =
    [ (0%nat, {| label := "Total Accounts";
                 value := Text (toLocaleString a);
                 sub := String.append (toString t) " transactions";
                 accent := "ok" |});
      (1%nat, {| label := "Suspicious Accounts";
                 value := Number f;
                 sub := "Flagged by algorithms";
                 accent := "warn" |});
      (2%nat, {| label := "Fraud Rings Detected";
                 value := Number r;
                 sub := String.append (toString c)
                          (String.append " cycles · "
                             (String.append (toString h) " smurfing hubs"));
                 accent := "danger" |});
      (3%nat, {| label := "Processing Time";
                 value := Text (String.append (toString p) "s");
                 sub := "Graph traversal complete";
                 accent := "default" |}) ] /\
  (value <$> cards summary =
     [ Text (toLocaleString a); Number f; Number r;
       Text (String.append (toString p) "s") ]) /\
  (sub <$> cards summary =
     [ String.append (toString t) " transactions";
       "Flagged by algorithms";
       String.append (toString c)
         (String.append " cycles · " (String.append (toString h) " smurfing hubs"));
       "Graph traversal complete" ]) /\
  (StatsStrip summary).*1 = [ 0; 1; 2; 3 ]%nat /\
  (forall other, agree summary other -> StatsStrip other = StatsStrip summary).
Proof.
  intros Ha Ht Hf Hr Hc Hh Hp.
  split; [ reflexivity | ].
  split; [ unfold StatsStrip, cards; rewrite Ha, Ht, Hf, Hr, Hc, Hh, Hp; reflexivity | ].
  split; [ unfold cards; cbn [fmap list_fmap value]; now rewrite Ha, Hf, Hr, Hp | ].
  split; [ unfold cards; cbn [fmap list_fmap sub]; now rewrite Ht, Hc, Hh | ].
  split; [ reflexivity | ].
  intros other Hag. unfold StatsStrip. now rewrite (cards_agree _ _ Hag).
Qed.

(** X18.  Whatever number fields the summary holds, the strip renders
    the same four cards, with the same labels, accents and keys.  A
    rendered card whose count is missing has no value, and a figure
    missing from a caption or from the processing time is written
    [undefined]. *)
Theorem stats_strip_any_summary (summary : gmap string Num) :
  label <$> (StatsStrip summary).*2 =
    [ "Total Accounts"; "Suspicious Accounts"; "Fraud Rings Detected"; "Processing Time" ] /\
  accent <$> (StatsStrip summary).*2 = [ "ok"; "warn"; "danger"; "default" ] /\
  (StatsStrip summary).*1 = [ 0; 1; 2; 3 ]%nat /\
  (forall i field,
      In (i, field) [ (0%nat, "total_accounts_analyzed");
                      (1%nat, "suspicious_accounts_flagged");
                      (2%nat, "fraud_rings_detected") ] ->
      exists c, StatsStrip summary !! i = Some (i, c) /\
                (value c = Nothing <-> summary !! field = None)) /\
  (summary !! "processing_time_seconds" = None ->
   exists c, StatsStrip summary !! 3%nat = Some (3%nat, c) /\
             value c = Text "undefineds") /\
  (summary !! "total_transactions" = None ->
   exists c, StatsStrip summary !! 0%nat = Some (0%nat, c) /\
             sub c = "undefined transactions").
Proof.
  split; [ reflexivity | ]. split; [ reflexivity | ]. split; [ reflexivity | ].
  split; [ | split; intros H; eexists; (split; [ reflexivity | ]); cbn [value sub];
             now rewrite H ].
  intros i field [ [= <- <-] | [ [= <- <-] | [ [= <- <-] | [] ] ] ];
    eexists; (split; [ reflexivity | ]); cbn [value];
    match goal with |- context [ summary !! ?k ] => destruct (summary !! k) end;
    cbn [locale plain]; split; intros H; try discriminate H; reflexivity.
Qed.

End Strip.

(** A summary with whole numbers, printed in decimal, and a locale
    form that writes the number between brackets. *)
Definition sample_toString (n : nat) : string :=
  NilEmpty.string_of_uint (Nat.to_uint n).

Definition sample_toLocaleString (n : nat) : string :=
  String.append "<" (String.append (sample_toString n) ">").

Definition sample_summary : gmap string nat :=
  list_to_map
    [ ("total_accounts_analyzed", 1250); ("total_transactions", 4800);
      ("suspicious_accounts_flagged", 37); ("fraud_rings_detected", 6);
      ("cycles_found", 4); ("smurfing_hubs_found", 2);
      ("processing_time_seconds", 3); ("engine_version", 7) ]%string%nat.

Lemma stats_strip_cards_witness :
  StatsStrip sample_toString sample_toLocaleString sample_summary
  = [ (0%nat, {| label := "Total Accounts"; value := Text "<1250>";
                 sub := "4800 transactions"; accent := "ok" |});
      (1%nat, {| label := "Suspicious Accounts"; value := Number 37%nat;
                 sub := "Flagged by algorithms"; accent := "warn" |});
      (2%nat, {| label := "Fraud Rings Detected"; value := Number 6%nat;
                 sub := "4 cycles · 2 smurfing hubs"; accent := "danger" |});
      (3%nat, {| label := "Processing Time"; value := Text "3s";
                 sub := "Graph traversal complete"; accent := "default" |}) ] /\
  value <$> cards sample_toString sample_toLocaleString sample_summary
  = [ Text "<1250>"; Number 37%nat; Number 6%nat; Text "3s" ] /\
  sub <$> cards sample_toString sample_toLocaleString sample_summary
  = [ "4800 transactions"; "Flagged by algorithms";
      "4 cycles · 2 smurfing hubs"; "Graph traversal complete" ]%string /\
  StatsStrip sample_toString sample_toLocaleString
    (<[ "engine_version"%string := 8%nat ]> sample_summary)
  = StatsStrip sample_toString sample_toLocaleString sample_summary.
Proof.
  destruct (stats_strip_cards sample_toString sample_toLocaleString sample_summary
              1250%nat 4800%nat 37%nat 6%nat 4%nat 2%nat 3%nat)
    as (_ & Hr & Hv & Hs & _ & Hag); try (vm_compute; reflexivity).
  split; [ exact Hr | ]. split; [ exact Hv | ]. split; [ exact Hs | ].
  apply Hag. unfold agree, contract_fields.
  repeat constructor; vm_compute; reflexivity.
Defined.

Lemma stats_strip_any_summary_witness :
  exists c,
    StatsStrip sample_toString sample_toLocaleString (∅ : gmap string nat) !! 3%nat
    = Some (3%nat, c) /\
    value c = Text "undefineds".
Proof.
  apply (proj1 (proj2 (proj2 (proj2 (proj2
           (stats_strip_any_summary sample_toString sample_toLocaleString ∅)))))).
  reflexivity.
Defined.

End StatsStrip.

(* ================================================================== *)
(** ** GraphPanel.jsx *)
(* ================================================================== *)

Module GraphPanel.

(** An element of [suspiciousAccounts]. *)
Record Account := {
  account_id : string;
  suspicion_score : Z;
  ring_id : option string;
  detected_patterns : list string
}.

(** A node of the graph payload. *)
Record Node := {
  id : string;
  tx_in : Z;
  tx_out : Z;
  total_in : Q;
  total_out : Q;
  suspicious : bool
}.

(** An edge end: the payload carries the node's id, and the force
    layout replaces it by the node object once the links are bound. *)
Inductive Endpoint := ById (s : string) | ByNode (n : Node).

Record Edge := { source : Endpoint; target : Endpoint }.

(** [typeof e.source === 'object' ? e.source.id : e.source] *)
Definition endpoint_id (e : Endpoint) : string :=
  match e with
  | ByNode n => id n
  | ById s => s
  end.

(** [new Map(suspiciousAccounts.map(s => [s.account_id, s]))]: entries
    are set in list order, a later entry replaces an earlier one. *)
Definition suspiciousMap (accounts : list Account) : gmap string Account :=
  fold_left (fun m s => <[ account_id s := s ]> m) accounts ∅.

(** [m.has(k)] *)
Definition has (m : gmap string Account) (k : string) : bool :=
  bool_decide (is_Some (m !! k)).

(** [!suspiciousMap.has(src) && !suspiciousMap.has(tgt)] *)
Definition is_normal (m : gmap string Account) (e : Edge) : bool :=
  let src := endpoint_id (source e) in
  let tgt := endpoint_id (target e) in
  negb (has m src) && negb (has m tgt).

(** [suspiciousMap.has(src) || suspiciousMap.has(tgt)] *)
Definition is_fraud (m : gmap string Account) (e : Edge) : bool :=
  let src := endpoint_id (source e) in
  let tgt := endpoint_id (target e) in
  has m src || has m tgt.

(** [edges.filter(...)], once for each layer. *)
Definition normalEdges (accounts : list Account) (edges : list Edge) : list Edge :=
  List.filter (is_normal (suspiciousMap accounts)) edges.

Definition fraudEdges (accounts : list Account) (edges : list Edge) : list Edge :=
  List.filter (is_fraud (suspiciousMap accounts)) edges.

(** The nodes are split by their own flag. *)
Definition normalNodes (nodes : list Node) : list Node :=
  List.filter (fun d => negb (suspicious d)) nodes.

Definition suspNodes (nodes : list Node) : list Node :=
  List.filter (fun d => suspicious d) nodes.

(** The link distance of the force layout: 65 between two suspicious
    accounts, 85 when one end is suspicious, 35 otherwise. *)
Definition distance (m : gmap string Account) (e : Edge) : Z :=
  let src := endpoint_id (source e) in
  let tgt := endpoint_id (target e) in
  if has m src && has m tgt then 65
  else if has m src || has m tgt then 85
  else 35.

(** [ringColorMap]: [fraudRings.forEach(ring =>
    ring.member_accounts.forEach(m => ringColorMap.set(m, { color, ring })))].
    The entry is kept as its ring; the colour is read off the ring's
    pattern type. *)
Definition ringColorMap (fraudRings : list RingPanel.Ring) : gmap string RingPanel.Ring :=
  fold_left
    (fun m ring => fold_left (fun m a => <[ a := ring ]> m) (RingPanel.member_accounts ring) m)
    fraudRings ∅.

(** The ids given to [mkArrow]. *)
Definition defined_markers : list string :=
  [ "arrowNormal"; "arrowSusp"; "arrowCycle"; "arrowSmurf"; "arrowShell" ].

Definition url (marker : string) : string :=
  String.append "url(#" (String.append marker ")").

(** The [marker-end] attribute of a fraud edge. *)
Definition marker_end (rcm : gmap string RingPanel.Ring) (d : Edge) : string :=
  match rcm !! endpoint_id (source d) with
  | None => "url(#arrowSusp)"
  | Some ring =>
      if String.eqb (RingPanel.pattern_type ring) "cycle" then "url(#arrowCycle)"
      else if String.eqb (RingPanel.pattern_type ring) "smurfing" then "url(#arrowSmurf)"
      else if String.eqb (RingPanel.pattern_type ring) "shell_network" then "url(#arrowShell)"
      else "url(#arrowSusp)"
  end.

(** The label under a suspicious node,
    [d.id.length > 12 ? '…' + d.id.slice(-7) : d.id]: the text and
    whether the ellipsis character stands in front of it. *)
Record Label := { ellipsis : bool; text : string }.

Definition label (d : Node) : Label :=
  if (12 <? String.length (id d))%nat
  then {| ellipsis := true; text := JS.slice_last 7 (id d) |}
  else {| ellipsis := false; text := id d |}.

(** Number of characters of a label. *)
Definition label_length (l : Label) : nat :=
  ((if ellipsis l then 1 else 0) + String.length (text l))%nat.

(** The tooltip a hovered node sets (the pointer position and the ring
    colour are left out). *)
Record Tooltip := {
  tip_id : string;
  txIn : Z;
  txOut : Z;
  totalIn : Q;
  totalOut : Q;
  suspScore : option Z;
  ringId : option string;
  patterns : option (list string)
}.

(** Hovering a node of the normal layer. *)
Definition hover_normal (d : Node) : Tooltip :=
  {| tip_id := id d; txIn := tx_in d; txOut := tx_out d;
     totalIn := total_in d; totalOut := total_out d;
     suspScore := None; ringId := None; patterns := Some [] |}.

(** Hovering a node of the suspicious layer: [susp?.suspicion_score],
    [susp?.ring_id], [susp?.detected_patterns] with
    [susp = suspiciousMap.get(d.id)]. *)
Definition hover_suspicious (m : gmap string Account) (d : Node) : Tooltip :=
  let susp := m !! id d in
  {| tip_id := id d; txIn := tx_in d; txOut := tx_out d;
     totalIn := total_in d; totalOut := total_out d;
     suspScore := suspicion_score <$> susp;
     ringId := susp ≫= ring_id;
     patterns := detected_patterns <$> susp |}.

(** The rows the tooltip shows: [tooltip.suspScore != null],
    [tooltip.ringId &&] (an empty id shows nothing) and
    [tooltip.patterns?.length > 0]. *)
Definition shows_score (t : Tooltip) : bool := bool_decide (is_Some (suspScore t)).

Definition shows_ring (t : Tooltip) : bool :=
  match ringId t with
  | Some r => negb (String.eqb r "")
  | None => false
  end.

Definition shows_patterns (t : Tooltip) : bool :=
  match patterns t with
  | Some (_ :: _) => true
  | _ => false
  end.

(** The payload's flag agrees with the list of suspicious accounts. *)
Definition flags_agree (accounts : list Account) (nodes : list Node) : Prop :=
  forall d, In d nodes -> (suspicious d = true <-> id d ∈ account_id <$> accounts).

(** [ring.member_accounts] lists the account [a]. *)
Definition lists (a : string) (ring : RingPanel.Ring) : bool :=
  bool_decide (a ∈ RingPanel.member_accounts ring).

(** Two listed accounts, the first a member of two rings, and the nodes
    of a payload whose flags agree with the list. *)
Definition sample_accounts : list Account :=
  [ {| account_id := "A"; suspicion_score := 91; ring_id := Some "R001";
       detected_patterns := ["cycle_length_3"; "high_velocity"] |};
    {| account_id := "H"; suspicion_score := 40; ring_id := Some "R003";
       detected_patterns := ["fan_in"] |} ]%string.

Definition sample_nodes : list Node :=
  [ {| id := "A"; tx_in := 4; tx_out := 5; total_in := 100; total_out := 90;
       suspicious := true |};
    {| id := "Z"; tx_in := 1; tx_out := 0; total_in := 10; total_out := 0;
       suspicious := false |};
    {| id := "H"; tx_in := 12; tx_out := 1; total_in := 700; total_out := 650;
       suspicious := true |} ]%string.

Definition sample_rings : list RingPanel.Ring :=
  [ {| RingPanel.ring_id := "R001"; RingPanel.pattern_type := "cycle";
       RingPanel.member_accounts := ["A"; "B"; "C"]; RingPanel.risk_score := 95 |};
    {| RingPanel.ring_id := "R002"; RingPanel.pattern_type := "shell_network";
       RingPanel.member_accounts := ["P"; "A"; "R"; "S"]; RingPanel.risk_score := 60 |};
    {| RingPanel.ring_id := "R003"; RingPanel.pattern_type := "smurfing";
       RingPanel.member_accounts := ["H"]; RingPanel.risk_score := 60 |} ]%string.

(** The map of the nodes the link force of the layout builds,
    [new Map(nodes.map(d => [id(d), d]))] with the accessor
    [d => d.id] the effect gives it. *)
Definition nodeById (nodes : list Node) : gmap string Node :=
  fold_left (fun m n => <[ id n := n ]> m) nodes ∅.

(** [d3.forceLink(edges).id(d => d.id)] once the simulation hands it
    the nodes: an end that is not an object is replaced by the node with
    that id, and the layout throws when no node has it. *)
Definition bind_end (m : gmap string Node) (e : Endpoint) : option Endpoint :=
  match e with
  | ByNode n => Some (ByNode n)
  | ById s => ByNode <$> m !! s
  end.

Definition bind_edge (m : gmap string Node) (e : Edge) : option Edge :=
  match bind_end m (source e), bind_end m (target e) with
  | Some s, Some t => Some {| source := s; target := t |}
  | _, _ => None
  end.

Definition forceLink (nodes : list Node) (edges : list Edge) : option (list Edge) :=
  mapM (bind_edge (nodeById nodes)) edges.

(** The two edge layers the effect draws: the layout binds the edges
    first, the filters run on the bound edges.  [None] is the effect
    stopped by the layout's exception. *)
Record Layers := { normal_layer : list Edge; fraud_layer : list Edge }.

Definition edge_layers (accounts : list Account) (nodes : list Node) (edges : list Edge)
  : option Layers :=
  match forceLink nodes edges with
  | Some bound =>
      Some {| normal_layer := normalEdges accounts bound;
              fraud_layer := fraudEdges accounts bound |}
  | None => None
  end.

(** An edge of a graph payload: its ends are ids of nodes of the
    payload. *)
Definition joins (nodes : list Node) (e : Edge) : Prop :=
  exists a b, e = {| source := ById a; target := ById b |} /\
              a ∈ id <$> nodes /\ b ∈ id <$> nodes.

(** A payload of four nodes and four edges, one of them between two
    accounts that are not listed. *)
Definition payload_nodes : list Node :=
  sample_nodes ++
  [ {| id := "Y"; tx_in := 2; tx_out := 2; total_in := 30; total_out := 30;
       suspicious := false |} ]%string.

Definition payload_edges : list Edge :=
  [ {| source := ById "A"; target := ById "Z" |};
    {| source := ById "Z"; target := ById "Y" |};
    {| source := ById "Y"; target := ById "H" |};
    {| source := ById "H"; target := ById "A" |} ]%string.

(** [k] is the id of a listed suspicious account. *)
Definition listed (accounts : list Account) (k : string) : Prop :=
  k ∈ account_id <$> accounts.

(** Two edges with the same end ids, as an edge of the payload and the
    same edge after the layout has bound its ends to node objects. *)
Definition same_ends (e e' : Edge) : Prop :=
  endpoint_id (source e) = endpoint_id (source e') /\
  endpoint_id (target e) = endpoint_id (target e').

Lemma fold_insert_dom accounts (m : gmap string Account) k :
  is_Some (fold_left (fun m s => <[ account_id s := s ]> m) accounts m !! k) <->
  is_Some (m !! k) \/ listed accounts k.
Proof.
  unfold listed. revert m. induction accounts as [ | s accounts IH ]; intros m; simpl.
  - rewrite elem_of_nil. tauto.
  - rewrite IH, elem_of_cons, lookup_insert_is_Some. split.
    + intros [ [ E | [ _ H ] ] | H ]; [ right; left; now symmetry | now left | right; now right ].
    + intros [ H | [ E | H ] ].
      * destruct (decide (account_id s = k)) as [ E | N ]; left; [ now left | now right ].
      * left. left. now symmetry.
      * now right.
Qed.

Lemma has_listed accounts k : has (suspiciousMap accounts) k = true <-> listed accounts k.
Proof.
  unfold has, suspiciousMap. rewrite bool_decide_eq_true, fold_insert_dom.
  rewrite lookup_empty. split; [ intros [ [ x H ] | H ]; [ discriminate | exact H ] | now right ].
Qed.

Lemma is_fraud_negb m e : is_normal m e = negb (is_fraud m e).
Proof. unfold is_normal, is_fraud. now rewrite negb_orb. Qed.

Lemma filter_partition {A} (f g : A -> bool) (l : list A) :
  (forall x, f x = negb (g x)) -> Permutation (List.filter f l ++ List.filter g l) l.
Proof.
  intros Hfg. induction l as [ | x l IH ]; simpl; [ reflexivity | ].
  rewrite (Hfg x). destruct (g x); simpl.
  - rewrite <- Permutation_middle. now constructor.
  - now constructor.
Qed.

(** Binding the ends of the edges does not move an edge to another
    layer. *)
Lemma layers_of_bound_edges accounts payload bound :
  Forall2 same_ends payload bound ->
  Forall2 same_ends (normalEdges accounts payload) (normalEdges accounts bound) /\
  Forall2 same_ends (fraudEdges accounts payload) (fraudEdges accounts bound).
Proof.
  unfold normalEdges, fraudEdges.
  induction 1 as [ | e e' l l' [ Hs Ht ] Hall [ IHn IHf ] ]; [ split; constructor | ].
  cbn [List.filter]. unfold is_normal, is_fraud. cbv zeta. rewrite Hs, Ht.
  split.
  - destruct (negb _ && negb _); [ constructor; [ now split | exact IHn ] | exact IHn ].
  - destruct (_ || _); [ constructor; [ now split | exact IHf ] | exact IHf ].
Qed.

(** Three edges and one suspicious account: the edges touching it go to
    the fraud layer, whichever form their ends have. *)
Example layers_sample :
  let acc := {| account_id := "B"; suspicion_score := 89; ring_id := Some "R001"%string;
                detected_patterns := ["cycle_length_3"]%string |} in
  let b := {| id := "B"; tx_in := 1; tx_out := 1; total_in := 10; total_out := 9;
              suspicious := true |} in
  let e1 := {| source := ById "A"; target := ByNode b |} in
  let e2 := {| source := ById "C"; target := ById "D" |} in
  let e3 := {| source := ById "B"; target := ById "C" |} in
  normalEdges [acc] [e1; e2; e3] = [e2] /\ fraudEdges [acc] [e1; e2; e3] = [e1; e3].
Proof. vm_compute. split; reflexivity. Qed.

(** *** Lookups in the two maps *)

Lemma last_filter_In {V} (P : V -> bool) (l : list V) r :
  last (List.filter P l) = Some r -> In r l /\ P r = true.
Proof.
  intros H. apply last_Some in H as [ l' E ].
  apply filter_In. rewrite E. apply in_or_app. right. now left.
Qed.

Lemma last_filter_None {V} (P : V -> bool) (l : list V) :
  last (List.filter P l) = None <-> forall v, In v l -> P v = false.
Proof.
  rewrite last_None. split.
  - intros E v Hv. destruct (P v) eqn:Pv; [ | reflexivity ].
    assert (H : In v (List.filter P l)) by now apply filter_In.
    rewrite E in H. destruct H.
  - intros H. induction l as [ | a l IH ]; [ reflexivity | ].
    cbn [List.filter]. rewrite (H a) by now left.
    apply IH. intros v Hv. apply H. now right.
Qed.

(** A map filled by successive [set] calls holds under a key the last
    value stored under it. *)
Lemma fold_insert_last {V} (key : V -> string) (l : list V) (m0 : gmap string V) k :
  fold_left (fun m v => <[ key v := v ]> m) l m0 !! k =
  match last (List.filter (fun v => bool_decide (key v = k)) l) with
  | Some v => Some v
  | None => m0 !! k
  end.
Proof.
  revert m0. induction l as [ | v l IH ]; intros m0; [ reflexivity | ].
  cbn [fold_left List.filter]. rewrite IH.
  destruct (bool_decide (key v = k)) eqn:E.
  - rewrite last_cons. destruct (last _); [ reflexivity | ].
    apply bool_decide_eq_true in E. rewrite lookup_insert. now rewrite decide_True.
  - destruct (last _); [ reflexivity | ].
    apply bool_decide_eq_false in E. rewrite lookup_insert. now rewrite decide_False.
Qed.

Lemma last_filter_unique {V} (key : V -> string) (l : list V) s :
  NoDup (key <$> l) -> In s l ->
  last (List.filter (fun v => bool_decide (key v = key s)) l) = Some s.
Proof.
  induction l as [ | v l IH ]; intros Hnd Hin; [ destruct Hin | ].
  rewrite fmap_cons in Hnd. apply NoDup_cons in Hnd as [ Hv Hnd ].
  cbn [List.filter]. destruct Hin as [ -> | Hin ].
  - rewrite bool_decide_true by reflexivity. rewrite last_cons.
    replace (last (List.filter (fun v => bool_decide (key v = key s)) l)) with (@None V);
      [ reflexivity | ].
    symmetry. apply last_filter_None. intros v Hv'. apply bool_decide_eq_false. intros E.
    apply Hv. rewrite <- E. apply list_elem_of_fmap_2. now apply list_elem_of_In.
  - specialize (IH Hnd Hin). destruct (bool_decide _); [ rewrite last_cons, IH | ]; auto.
Qed.

Lemma suspiciousMap_lookup accounts k :
  suspiciousMap accounts !! k =
  last (List.filter (fun s => bool_decide (account_id s = k)) accounts).
Proof.
  unfold suspiciousMap. rewrite fold_insert_last, lookup_empty. now destruct (last _).
Qed.

Lemma fold_members_lookup (ring : RingPanel.Ring) members (m : gmap string RingPanel.Ring) k :
  fold_left (fun m a => <[ a := ring ]> m) members m !! k =
  if bool_decide (k ∈ members) then Some ring else m !! k.
Proof.
  revert m. induction members as [ | a members IH ]; intros m.
  - rewrite bool_decide_false; [ reflexivity | apply not_elem_of_nil ].
  - cbn [fold_left]. rewrite IH. destruct (decide (k ∈ members)) as [ Hk | Hk ].
    + rewrite !bool_decide_true; [ reflexivity | apply elem_of_cons; now right | exact Hk ].
    + rewrite (bool_decide_false _ Hk), lookup_insert.
      destruct (decide (a = k)) as [ -> | N ].
      * rewrite bool_decide_true; [ reflexivity | apply elem_of_cons; now left ].
      * rewrite bool_decide_false; [ reflexivity | ].
        rewrite elem_of_cons. intros [ E | H ]; [ now apply N | now apply Hk ].
Qed.

Lemma fold_rings_lookup fraudRings (m0 : gmap string RingPanel.Ring) k :
  fold_left
    (fun m ring => fold_left (fun m a => <[ a := ring ]> m) (RingPanel.member_accounts ring) m)
    fraudRings m0 !! k =
  match last (List.filter (lists k) fraudRings) with
  | Some ring => Some ring
  | None => m0 !! k
  end.
Proof.
  revert m0. induction fraudRings as [ | r l IH ]; intros m0; [ reflexivity | ].
  cbn [fold_left List.filter]. rewrite IH, fold_members_lookup.
  fold (lists k r). destruct (lists k r); [ rewrite last_cons | ];
    now destruct (last (List.filter (lists k) l)).
Qed.

Lemma ringColorMap_lookup fraudRings k :
  ringColorMap fraudRings !! k = last (List.filter (lists k) fraudRings).
Proof.
  unfold ringColorMap. rewrite fold_rings_lookup, lookup_empty. now destruct (last _).
Qed.

(** In a list sorted by a transitive order, the last element that
    passes a test comes after every other element that passes it. *)
Lemma last_filter_sorted {V} (R : V -> V -> Prop) (P : V -> bool) (l : list V) r :
  StronglySorted R l -> last (List.filter P l) = Some r ->
  forall o, In o l -> P o = true -> o = r \/ R o r.
Proof.
  induction 1 as [ | a l Hs IH Ha ]; intros Hl o Ho Po; [ destruct Ho | ].
  cbn [List.filter] in Hl.
  destruct (last (List.filter P l)) as [ r' | ] eqn:E.
  - assert (Hr : r' = r).
    { destruct (P a); [ rewrite last_cons, E in Hl | rewrite E in Hl ]; congruence. }
    subst r'. destruct Ho as [ <- | Ho ]; [ | now apply IH ].
    right. apply last_filter_In in E as [ Hin _ ].
    rewrite List.Forall_forall in Ha. now apply Ha.
  - pose proof (proj1 (last_filter_None P l) E) as Hnone.
    destruct Ho as [ <- | Ho ].
    + rewrite Po, last_cons, E in Hl. left. congruence.
    + rewrite (Hnone o Ho) in Po. discriminate.
Qed.

(** *** The edge layers *)

Lemma nodeById_lookup nodes a :
  a ∈ id <$> nodes ->
  exists s, nodeById nodes !! a = Some s /\ In s nodes /\ id s = a.
Proof.
  intros Ha. unfold nodeById. rewrite fold_insert_last, lookup_empty.
  destruct (last (List.filter (fun v => bool_decide (id v = a)) nodes)) as [ s | ] eqn:E.
  - exists s. apply last_filter_In in E as [ Hin Hid ].
    apply bool_decide_eq_true in Hid. now repeat split.
  - exfalso. apply list_elem_of_fmap in Ha as (n & -> & Hn).
    assert (Hin : In n nodes) by now apply list_elem_of_In.
    pose proof (proj1 (last_filter_None _ _) E n Hin) as H.
    apply bool_decide_eq_false in H. now apply H.
Qed.

Lemma bind_edge_ids nodes a b e' :
  bind_edge (nodeById nodes) {| source := ById a; target := ById b |} = Some e' ->
  exists s t,
    e' = {| source := ByNode s; target := ByNode t |} /\
    nodeById nodes !! a = Some s /\ nodeById nodes !! b = Some t.
Proof.
  unfold bind_edge. cbn [source target bind_end].
  destruct (nodeById nodes !! a) as [ s | ]; [ | discriminate ].
  destruct (nodeById nodes !! b) as [ t | ]; [ | discriminate ].
  cbn [fmap option_fmap option_map]. intros [= <-]. now exists s, t.
Qed.

Lemma bind_edge_joins nodes e : joins nodes e -> is_Some (bind_edge (nodeById nodes) e).
Proof.
  intros (a & b & -> & Ha & Hb).
  destruct (nodeById_lookup nodes a Ha) as (s & Hs & _).
  destruct (nodeById_lookup nodes b Hb) as (t & Ht & _).
  unfold bind_edge. cbn [source target bind_end]. rewrite Hs, Ht. now eexists.
Qed.

(** C8.  For a payload whose edges join nodes of the payload the layout
    binds every edge and the effect draws two edge layers.  The layers
    partition the bound edge list: together they hold every edge once
    and none is in both; the edge at a position of the payload with end
    ids [a] and [b] is bound to the nodes with these ids, and it is in
    the fraud layer exactly when [a] or [b] is the id of a listed
    suspicious account, in the normal layer exactly when neither
    is. *)
Theorem edge_layers_partition
    (accounts : list Account) (nodes : list Node) (edges : list Edge) :
  Forall (joins nodes) edges ->
  exists bound,
    forceLink nodes edges = Some bound /\
    edge_layers accounts nodes edges =
      Some {| normal_layer := normalEdges accounts bound;
              fraud_layer := fraudEdges accounts bound |} /\
    length bound = length edges /\
    Permutation (normalEdges accounts bound ++ fraudEdges accounts bound) bound /\
    (forall e, ~ (In e (normalEdges accounts bound) /\ In e (fraudEdges accounts bound))) /\
    (forall i a b,
        edges !! i = Some {| source := ById a; target := ById b |} ->
        exists s t,
          bound !! i = Some {| source := ByNode s; target := ByNode t |} /\
          In s nodes /\ In t nodes /\ id s = a /\ id t = b /\
          (In {| source := ByNode s; target := ByNode t |} (fraudEdges accounts bound) <->
           listed accounts a \/ listed accounts b) /\
          (In {| source := ByNode s; target := ByNode t |} (normalEdges accounts bound) <->
           ~ listed accounts a /\ ~ listed accounts b)).
Proof.
  intros Hjoins.
  assert (Hsome : is_Some (forceLink nodes edges)).
  { apply mapM_is_Some. eapply Forall_impl; [ exact Hjoins | ].
    intros e He. now apply bind_edge_joins. }
  destruct Hsome as [ bound Hbound ]. exists bound.
  split; [ exact Hbound | ]. split; [ unfold edge_layers; now rewrite Hbound | ].
  apply mapM_Some in Hbound.
  split; [ symmetry; now apply Forall2_length in Hbound | ].
  split; [ apply filter_partition, is_fraud_negb | ].
  split.
  { intros e [ H1 H2 ]. unfold normalEdges, fraudEdges in *.
    apply filter_In in H1 as [ _ H1 ]. apply filter_In in H2 as [ _ H2 ].
    rewrite is_fraud_negb, H2 in H1. discriminate. }
  intros i a b Hi.
  destruct (Forall2_lookup_l _ _ _ _ _ Hbound Hi) as (e' & Hi' & Hbind).
  destruct (bind_edge_ids nodes a b e' Hbind) as (s & t & -> & Hs & Ht).
  assert (Ha : a ∈ id <$> nodes /\ b ∈ id <$> nodes).
  { destruct (Forall_lookup_1 _ _ _ _ Hjoins Hi) as (a' & b' & [= -> ->] & H1 & H2).
    now split. }
  destruct Ha as [ Ha Hb ].
  destruct (nodeById_lookup nodes a Ha) as (s' & Hs' & Hins & Hids).
  destruct (nodeById_lookup nodes b Hb) as (t' & Ht' & Hint & Hidt).
  rewrite Hs in Hs'. injection Hs' as <-. rewrite Ht in Ht'. injection Ht' as <-.
  exists s, t. split; [ exact Hi' | ].
  split; [ exact Hins | ]. split; [ exact Hint | ].
  split; [ exact Hids | ]. split; [ exact Hidt | ].
  assert (Hin : In {| source := ByNode s; target := ByNode t |} bound).
  { apply list_elem_of_In. eapply list_elem_of_lookup_2. exact Hi'. }
  assert (Hf : is_fraud (suspiciousMap accounts) {| source := ByNode s; target := ByNode t |}
               = true <-> listed accounts a \/ listed accounts b).
  { unfold is_fraud. cbv zeta. cbn [source target endpoint_id].
    now rewrite orb_true_iff, !has_listed, Hids, Hidt. }
  unfold normalEdges, fraudEdges. rewrite !filter_In. split; [ tauto | ].
  rewrite is_fraud_negb, negb_true_iff, <- not_true_iff_false, Hf. tauto.
Qed.

Lemma payload_joins : Forall (joins payload_nodes) payload_edges.
Proof.
  repeat constructor; eexists _, _;
    (split; [ reflexivity | split; apply (bool_decide_unpack (_ ∈ _)); vm_compute; exact I ]).
Qed.

Lemma edge_layers_partition_witness :
  exists bound,
    forceLink payload_nodes payload_edges = Some bound /\
    length bound = 4%nat /\
    (length (normalEdges sample_accounts bound) = 1 /\
     length (fraudEdges sample_accounts bound) = 3)%nat /\
    exists s t,
      bound !! 1%nat = Some {| source := ByNode s; target := ByNode t |} /\
      id s = "Z"%string /\ id t = "Y"%string /\
      In {| source := ByNode s; target := ByNode t |} (normalEdges sample_accounts bound).
Proof.
  destruct (edge_layers_partition sample_accounts payload_nodes payload_edges payload_joins)
    as (bound & Hb & _ & Hl & _ & _ & Hedge).
  exists bound. split; [ exact Hb | ]. split; [ exact Hl | ].
  split; [ vm_compute in Hb; injection Hb as <-; vm_compute; split; reflexivity | ].
  destruct (Hedge 1%nat "Z"%string "Y"%string eq_refl)
    as (s & t & Hi & _ & _ & Hs & Ht & _ & Hn).
  exists s, t. split; [ exact Hi | ]. split; [ exact Hs | ]. split; [ exact Ht | ].
  apply Hn.
  split; [ change ("Z"%string ∉ account_id <$> sample_accounts)
         | change ("Y"%string ∉ account_id <$> sample_accounts) ];
    apply (bool_decide_unpack (_ ∉ _)); vm_compute; exact I.
Defined.

(** An edge naming an account that is no node of the payload stops the
    effect: nothing is drawn. *)
Example dangling_edge :
  edge_layers sample_accounts payload_nodes
    [ {| source := ById "A"; target := ById "Q" |} ] = None.
Proof. vm_compute. reflexivity. Qed.

(** X7.  [suspiciousMap.get(k)] is the last listed account whose id is
    [k]: it is undefined exactly when no listed account has that id, the
    account it returns is a listed one with that id, and when the listed
    ids are distinct every listed account is found under its id. *)
Theorem suspiciousMap_get (accounts : list Account) (k : string) :
  suspiciousMap accounts !! k =
    last (List.filter (fun s => bool_decide (account_id s = k)) accounts) /\
  (suspiciousMap accounts !! k = None <-> ~ listed accounts k) /\
  (forall s, suspiciousMap accounts !! k = Some s -> In s accounts /\ account_id s = k) /\
  (NoDup (account_id <$> accounts) ->
   forall s, In s accounts -> account_id s = k -> suspiciousMap accounts !! k = Some s).
Proof.
  split; [ apply suspiciousMap_lookup | ]. split; [ | split ].
  - rewrite <- has_listed. unfold has.
    rewrite bool_decide_eq_true, eq_None_not_Some. tauto.
  - intros s. rewrite suspiciousMap_lookup. intros H.
    apply last_filter_In in H as [ Hin E ]. now apply bool_decide_eq_true in E.
  - intros Hnd s Hin <-. rewrite suspiciousMap_lookup. now apply last_filter_unique.
Qed.

Lemma suspiciousMap_get_witness :
  suspiciousMap sample_accounts !! "H"%string =
  Some {| account_id := "H"; suspicion_score := 40; ring_id := Some "R003"%string;
          detected_patterns := ["fan_in"%string] |}.
Proof.
  apply (proj2 (proj2 (proj2 (suspiciousMap_get sample_accounts "H")))).
  - apply (bool_decide_unpack (NoDup (account_id <$> sample_accounts))). vm_compute. exact I.
  - right. left. reflexivity.
  - reflexivity.
Defined.

(** X8.  [ringColorMap.get(a)] is the last ring of the report that lists
    [a] among its members: an entry exists exactly for the members of
    some ring, and when the report is ordered by falling risk score an
    account of several rings is drawn with the ring of lowest risk. *)
Theorem ringColorMap_get (fraudRings : list RingPanel.Ring) (a : string) :
  ringColorMap fraudRings !! a = last (List.filter (lists a) fraudRings) /\
  (is_Some (ringColorMap fraudRings !! a) <->
   exists ring, In ring fraudRings /\ a ∈ RingPanel.member_accounts ring) /\
  (RingPanel.risk_descending fraudRings ->
   forall ring other,
     ringColorMap fraudRings !! a = Some ring ->
     In other fraudRings -> a ∈ RingPanel.member_accounts other ->
     (RingPanel.risk_score ring <= RingPanel.risk_score other)%Q).
Proof.
  split; [ apply ringColorMap_lookup | ]. split.
  - rewrite ringColorMap_lookup. split.
    + intros [ r Hr ]. exists r. apply last_filter_In in Hr as [ Hin Hl ].
      split; [ exact Hin | now apply bool_decide_eq_true in Hl ].
    + intros (r & Hin & Hl).
      destruct (last (List.filter (lists a) fraudRings)) as [ r' | ] eqn:E; [ now exists r' | ].
      pose proof (proj1 (last_filter_None _ _) E r Hin) as Hf.
      apply bool_decide_eq_false in Hf. now destruct Hf.
  - intros Hs ring other Hget Hin Hl. rewrite ringColorMap_lookup in Hget.
    apply Sorted_StronglySorted in Hs; [ | intros x y z Hxy Hyz; now apply Qle_trans with (RingPanel.risk_score y) ].
    destruct (last_filter_sorted _ (lists a) _ _ Hs Hget other Hin) as [ -> | H ].
    + now apply bool_decide_eq_true.
    + apply Qle_refl.
    + exact H.
Qed.

Lemma ringColorMap_get_witness :
  is_Some (ringColorMap sample_rings !! "A"%string) /\ (60 <= 95)%Q.
Proof.
  split; [ apply (bool_decide_unpack (is_Some _)); vm_compute; exact I | ].
  assert (Hs : RingPanel.risk_descending sample_rings)
    by (repeat constructor; vm_compute; discriminate).
  apply (proj2 (proj2 (ringColorMap_get sample_rings "A")) Hs
           {| RingPanel.ring_id := "R002"; RingPanel.pattern_type := "shell_network";
              RingPanel.member_accounts := ["P"; "A"; "R"; "S"]%string;
              RingPanel.risk_score := 60 |}
           {| RingPanel.ring_id := "R001"; RingPanel.pattern_type := "cycle";
              RingPanel.member_accounts := ["A"; "B"; "C"]%string;
              RingPanel.risk_score := 95 |}).
  - vm_compute. reflexivity.
  - left. reflexivity.
  - apply (bool_decide_unpack (_ ∈ _)). vm_compute. exact I.
Defined.

(** *** The layout and the layers *)

(** X9.  The link distance of the force layout tells the layers apart:
    an edge gets 35 exactly when it is drawn in the normal layer, 65
    when both its ends are listed suspicious accounts and 85 when
    exactly one is, so every edge of the fraud layer gets 65 or 85. *)
Theorem link_distance (accounts : list Account) (edges : list Edge) (e : Edge) :
  let m := suspiciousMap accounts in
  let src := endpoint_id (source e) in
  let tgt := endpoint_id (target e) in
  (distance m e = 65 <-> listed accounts src /\ listed accounts tgt) /\
  (distance m e = 85 <->
   (listed accounts src /\ ~ listed accounts tgt) \/
   (~ listed accounts src /\ listed accounts tgt)) /\
  (distance m e = 35 <-> ~ listed accounts src /\ ~ listed accounts tgt) /\
  (In e edges -> (In e (normalEdges accounts edges) <-> distance m e = 35)) /\
  (In e edges ->
   (In e (fraudEdges accounts edges) <-> distance m e = 65 \/ distance m e = 85)).
Proof.
  intros m src tgt.
  pose proof (has_listed accounts src) as Hs. pose proof (has_listed accounts tgt) as Ht.
  unfold normalEdges, fraudEdges. rewrite !filter_In.
  unfold distance, is_normal, is_fraud. cbv zeta. fold m src tgt in Hs, Ht |- *.
  destruct (has m src), (has m tgt); cbn [andb orb negb];
    repeat split; intros; try discriminate; try lia; try tauto;
    try (exfalso; intuition congruence); intuition congruence.
Qed.

Lemma link_distance_witness :
  let e := {| source := ById "A"; target := ById "Z" |} in
  In e (fraudEdges sample_accounts [e]) /\ distance (suspiciousMap sample_accounts) e = 85.
Proof.
  intros e. split; [ | reflexivity ].
  apply (proj2 (proj2 (proj2 (proj2 (link_distance sample_accounts [e] e)))));
    [ now left | right; reflexivity ].
Defined.

(** X10.  The two node layers hold every node once, split by the node's
    own flag.  When the flags agree with the list of suspicious accounts
    an edge bound to two nodes is drawn in the fraud layer exactly when
    one of these nodes is in the suspicious layer, and hovering a node
    of the suspicious layer finds its account. *)
Theorem node_layers (accounts : list Account) (nodes : list Node) (edges : list Edge) :
  Permutation (normalNodes nodes ++ suspNodes nodes) nodes /\
  (forall d, ~ (In d (normalNodes nodes) /\ In d (suspNodes nodes))) /\
  (flags_agree accounts nodes ->
   (forall s t,
      In s nodes -> In t nodes ->
      (In {| source := ByNode s; target := ByNode t |} (fraudEdges accounts edges) <->
       In {| source := ByNode s; target := ByNode t |} edges /\
       (In s (suspNodes nodes) \/ In t (suspNodes nodes)))) /\
   (forall d, In d (suspNodes nodes) -> is_Some (suspiciousMap accounts !! id d)) /\
   (forall d, In d (normalNodes nodes) -> suspiciousMap accounts !! id d = None)).
Proof.
  split; [ apply filter_partition; reflexivity | ]. split.
  - unfold normalNodes, suspNodes. intros d [ H1 H2 ].
    apply filter_In in H1 as [ _ H1 ]. apply filter_In in H2 as [ _ H2 ].
    rewrite H2 in H1. discriminate.
  - intros Hflags.
    assert (Hl : forall d, In d nodes -> (In d (suspNodes nodes) <-> listed accounts (id d))).
    { intros d Hd. unfold suspNodes. rewrite filter_In, (Hflags d Hd). unfold listed. tauto. }
    split; [ | split ].
    + intros s t Hs Ht. unfold fraudEdges. rewrite filter_In.
      unfold is_fraud. cbv zeta. cbn [source target endpoint_id].
      now rewrite orb_true_iff, !has_listed, (Hl s Hs), (Hl t Ht).
    + intros d Hd. assert (Hin : In d nodes) by (apply filter_In in Hd; tauto).
      apply (Hl d Hin) in Hd. apply has_listed in Hd. unfold has in Hd.
      now apply bool_decide_eq_true in Hd.
    + intros d Hd. unfold normalNodes in Hd. apply filter_In in Hd as [ Hin Hd ].
      apply negb_true_iff in Hd. apply eq_None_not_Some. intros Hsome.
      assert (Hh : has (suspiciousMap accounts) (id d) = true)
        by now apply bool_decide_eq_true.
      apply has_listed in Hh. apply (Hflags d Hin) in Hh. congruence.
Qed.

Lemma sample_flags_agree : flags_agree sample_accounts sample_nodes.
Proof.
  intros d Hd. simpl in Hd.
  destruct Hd as [ <- | [ <- | [ <- | [] ] ] ]; cbn [suspicious id]; split; intros H;
    try reflexivity; try discriminate.
  - apply (bool_decide_unpack (_ ∈ _)). vm_compute. exact I.
  - exfalso. revert H. apply (bool_decide_unpack (_ ∉ _)). vm_compute. exact I.
  - apply (bool_decide_unpack (_ ∈ _)). vm_compute. exact I.
Qed.

Lemma node_layers_witness :
  is_Some (suspiciousMap sample_accounts !! "H"%string).
Proof.
  apply (proj1 (proj2 (proj2 (proj2 (node_layers sample_accounts sample_nodes [])) sample_flags_agree))
           {| id := "H"; tx_in := 12; tx_out := 1; total_in := 700; total_out := 650;
              suspicious := true |}).
  vm_compute. right. left. reflexivity.
Defined.

(** X11.  The arrow head of a fraud edge is always one of the markers
    the panel defines, never the normal one, and follows the ring the
    colour map holds for the edge's source: the marker of that ring's
    pattern for a source whose last listing ring is a cycle, a smurfing
    or a shell ring, the plain suspicious marker for a source in no ring
    or in a ring of another pattern. *)
Theorem marker_end_defined (fraudRings : list RingPanel.Ring) (d : Edge) :
  let rcm := ringColorMap fraudRings in
  let ring := last (List.filter (lists (endpoint_id (source d))) fraudRings) in
  (exists marker,
      In marker defined_markers /\ marker <> "arrowNormal"%string /\
      marker_end rcm d = url marker) /\
  (marker_end rcm d = url "arrowCycle" <->
   RingPanel.pattern_type <$> ring = Some "cycle"%string) /\
  (marker_end rcm d = url "arrowSmurf" <->
   RingPanel.pattern_type <$> ring = Some "smurfing"%string) /\
  (marker_end rcm d = url "arrowShell" <->
   RingPanel.pattern_type <$> ring = Some "shell_network"%string) /\
  (ring = None -> marker_end rcm d = url "arrowSusp").
Proof.
  intros rcm ring. unfold marker_end. unfold rcm. rewrite ringColorMap_lookup. fold ring.
  change (url "arrowCycle") with "url(#arrowCycle)"%string.
  change (url "arrowSmurf") with "url(#arrowSmurf)"%string.
  change (url "arrowShell") with "url(#arrowShell)"%string.
  change (url "arrowSusp") with "url(#arrowSusp)"%string.
  destruct ring as [ r | ]; cbn [fmap option_fmap option_map].
  - destruct (String.eqb_spec (RingPanel.pattern_type r) "cycle") as [ E1 | N1 ];
      [ | destruct (String.eqb_spec (RingPanel.pattern_type r) "smurfing") as [ E2 | N2 ];
          [ | destruct (String.eqb_spec (RingPanel.pattern_type r) "shell_network")
                as [ E3 | N3 ] ] ].
    + rewrite E1. split; [ exists "arrowCycle"%string; vm_compute; intuition discriminate | ].
      repeat split; intros; try discriminate; reflexivity.
    + rewrite E2. split; [ exists "arrowSmurf"%string; vm_compute; intuition discriminate | ].
      repeat split; intros; try discriminate; reflexivity.
    + rewrite E3. split; [ exists "arrowShell"%string; vm_compute; intuition discriminate | ].
      repeat split; intros; try discriminate; reflexivity.
    + split; [ exists "arrowSusp"%string; vm_compute; intuition discriminate | ].
      repeat split; intros; try discriminate; congruence.
  - split; [ exists "arrowSusp"%string; vm_compute; intuition discriminate | ].
    repeat split; intros; try discriminate; reflexivity.
Qed.

Lemma marker_end_defined_witness :
  marker_end (ringColorMap sample_rings) {| source := ById "Z"; target := ById "A" |} =
  url "arrowSusp".
Proof.
  apply (proj2 (proj2 (proj2 (proj2
           (marker_end_defined sample_rings {| source := ById "Z"; target := ById "A" |}))))).
  reflexivity.
Defined.

(** X12.  The label under a suspicious node never has more than twelve
    characters: an id of at most twelve characters is shown whole, a
    longer one as the ellipsis followed by its last seven characters. *)
Theorem node_label (d : Node) :
  (label_length (label d) <= 12)%nat /\
  (ellipsis (label d) = true <-> (12 < String.length (id d))%nat) /\
  (ellipsis (label d) = false -> text (label d) = id d) /\
  (ellipsis (label d) = true ->
   label_length (label d) = 8%nat /\
   exists front, id d = String.append front (text (label d))).
Proof.
  unfold label, label_length.
  destruct (Nat.ltb_spec 12 (String.length (id d))) as [ Hlt | Hle ];
    cbn [ellipsis text]; unfold JS.slice_last.
  - rewrite JS.drop_chars_length.
    split; [ lia | ]. split; [ tauto | ]. split; [ discriminate | ].
    intros _. split; [ lia | ].
    destruct (JS.drop_chars_split (String.length (id d) - 7) (id d)) as (front & E & _);
      [ lia | ].
    now exists front.
  - split; [ simpl; lia | ]. split; [ split; [ discriminate | lia ] | ].
    split; [ reflexivity | discriminate ].
Qed.

Lemma node_label_witness :
  text (label {| id := "ACC_0000012345"; tx_in := 1; tx_out := 1; total_in := 1;
                 total_out := 1; suspicious := true |}) = "0012345"%string.
Proof.
  destruct (node_label {| id := "ACC_0000012345"; tx_in := 1; tx_out := 1; total_in := 1;
                          total_out := 1; suspicious := true |}) as (_ & _ & _ & H).
  destruct (H eq_refl) as [ _ _ ]. reflexivity.
Defined.

(** X13.  The tooltip of a node of the normal layer never shows a
    suspicion score, a ring or pattern tags.  The tooltip of a node of
    the suspicious layer shows the score exactly when the node's id is
    the id of a listed account, and then its score, ring and patterns
    are those of the last listed account with that id; for a flagged
    node without a listed account the three rows are left out. *)
Theorem tooltip_rows (accounts : list Account) (d : Node) :
  let m := suspiciousMap accounts in
  (shows_score (hover_normal d) = false /\
   shows_ring (hover_normal d) = false /\
   shows_patterns (hover_normal d) = false) /\
  (shows_score (hover_suspicious m d) = true <-> listed accounts (id d)) /\
  (~ listed accounts (id d) ->
   shows_ring (hover_suspicious m d) = false /\
   shows_patterns (hover_suspicious m d) = false) /\
  (forall s,
      last (List.filter (fun s => bool_decide (account_id s = id d)) accounts) = Some s ->
      suspScore (hover_suspicious m d) = Some (suspicion_score s) /\
      ringId (hover_suspicious m d) = ring_id s /\
      patterns (hover_suspicious m d) = Some (detected_patterns s)).
Proof.
  intros m. split; [ repeat split | ].
  pose proof (has_listed accounts (id d)) as Hh. unfold has in Hh. fold m in Hh.
  unfold shows_score, shows_ring, shows_patterns, hover_suspicious.
  cbn [suspScore ringId patterns]. cbv zeta.
  pose proof (suspiciousMap_lookup accounts (id d)) as Hget. fold m in Hget.
  destruct (m !! id d) as [ a | ] eqn:E; cbn [fmap option_fmap option_map mbind option_bind].
  - split; [ rewrite <- Hh; split; intros _; [ | reflexivity ];
             apply bool_decide_eq_true; now exists a | ].
    split.
    + intros Hn. exfalso. apply Hn, Hh, bool_decide_eq_true. now exists a.
    + intros s Hs. rewrite Hs in Hget. injection Hget as ->. now repeat split.
  - split; [ rewrite <- Hh; split; intros H; [ | exact H ];
             rewrite bool_decide_eq_true in H; now destruct H | ].
    split; [ now split | ].
    intros s Hs. rewrite Hs in Hget. discriminate.
Qed.

Lemma tooltip_rows_witness :
  let d := {| id := "A"; tx_in := 4; tx_out := 5; total_in := 100; total_out := 90;
              suspicious := true |} in
  suspScore (hover_suspicious (suspiciousMap sample_accounts) d) = Some 91 /\
  ringId (hover_suspicious (suspiciousMap sample_accounts) d) = Some "R001"%string /\
  patterns (hover_suspicious (suspiciousMap sample_accounts) d) =
    Some ["cycle_length_3"; "high_velocity"]%string.
Proof.
  intros d.
  apply (proj2 (proj2 (proj2 (tooltip_rows sample_accounts d)))
           {| account_id := "A"; suspicion_score := 91; ring_id := Some "R001"%string;
              detected_patterns := ["cycle_length_3"; "high_velocity"]%string |}).
  reflexivity.
Defined.

End GraphPanel.

(* ================================================================== *)
(** ** DownloadBar.jsx

    [downloadJSON] hands the browser the text
    [JSON.stringify(result, null, 2)].  The module models the host's
    [JSON.stringify] and [JSON.parse] on JSON values and shows that the
    exported text parses back to the report.

    Strings are sequences of code units below 256.  Numbers are kept
    abstract: the host prints a number as a token and reads the token
    back as the same number.  An object is the list of its members in
    the order the host enumerates them. *)
(* ================================================================== *)

Module DownloadBar.

Local Open Scope nat_scope.

Definition nl : string := String "010" EmptyString.

Section Json.
(** The numbers of the host, with the token the host prints for a
    number ([Number::toString]) and the number it reads from a token. *)
Context {Num : Type}.
Context (num_to_string : Num -> string) (num_of_string : string -> option Num).

(** JSON values.  An object lists its members in the order the host
    enumerates them. *)
#[warnings="-register-all"]
Inductive json :=
| JNull
| JBool (b : bool)
| JNumber (n : Num)
| JString (s : string)
| JArray (items : list json)
| JObject (fields : list (string * json)).

(** *** JSON.stringify *)

Definition hex_digit (n : N) : ascii :=
  match n with
  | 0 => "0" | 1 => "1" | 2 => "2" | 3 => "3" | 4 => "4" | 5 => "5" | 6 => "6"
  | 7 => "7" | 8 => "8" | 9 => "9" | 10 => "a" | 11 => "b" | 12 => "c"
  | 13 => "d" | 14 => "e" | _ => "f"
  end%N%char.

(** [QuoteJSONString], one character: the short escapes, [\u00XX] for
    the other control characters, and the character itself otherwise.
    The escape is written in front of [k]. *)
Definition escape_char (c : ascii) (k : string) : string :=
  let n := N_of_ascii c in
  if (n =? 8)%N then String "092" (String "b" k)
  else if (n =? 9)%N then String "092" (String "t" k)
  else if (n =? 10)%N then String "092" (String "n" k)
  else if (n =? 12)%N then String "092" (String "f" k)
  else if (n =? 13)%N then String "092" (String "r" k)
  else if (n =? 34)%N then String "092" (String "034" k)
  else if (n =? 92)%N then String "092" (String "092" k)
  else if (n <? 32)%N then
    String "092" (String "u" (String "0" (String "0"
      (String (hex_digit (n / 16)) (String (hex_digit (n mod 16)) k)))))
  else String c k.

Fixpoint escape (s : string) (k : string) : string :=
  match s with
  | EmptyString => k
  | String c s' => escape_char c (escape s' k)
  end.

Definition quote (s : string) : string := String "034" (escape s (String "034" EmptyString)).

(** [SerializeJSONProperty] with [SerializeJSONArray] and
    [SerializeJSONObject]: [indent] is the current indentation and [gap]
    what one level adds to it; with an empty gap the text has no line
    breaks. *)
Fixpoint serialize (gap indent : string) (v : json) : string :=
  match v with
  | JNull => "null"
  | JBool true => "true"
  | JBool false => "false"
  | JNumber n => num_to_string n
  | JString s => quote s
  | JArray items =>
      let stepback := indent in
      let indent := indent +:+ gap in
      let partial := List.map (serialize gap indent) items in
      match partial with
      | [] => "[]"
      | _ =>
          if String.eqb gap "" then "[" +:+ JS.join "," partial +:+ "]"
          else
            let separator := "," +:+ nl +:+ indent in
            "[" +:+ nl +:+ indent +:+ JS.join separator partial +:+ nl +:+ stepback +:+ "]"
      end
  | JObject fields =>
      let stepback := indent in
      let indent := indent +:+ gap in
      let partial :=
        List.map (fun kv =>
                    quote kv.1 +:+ ":" +:+ (if String.eqb gap "" then "" else " ")
                    +:+ serialize gap indent kv.2) fields in
      match partial with
      | [] => "{}"
      | _ =>
          if String.eqb gap "" then "{" +:+ JS.join "," partial +:+ "}"
          else
            let separator := "," +:+ nl +:+ indent in
            "{" +:+ nl +:+ indent +:+ JS.join separator partial +:+ nl +:+ stepback +:+ "}"
      end
  end.

(** [JSON.stringify(value, null, space)] with a numeric [space]: the gap
    is that many spaces, ten at most. *)
Fixpoint spaces (n : nat) : string :=
  match n with
  | O => EmptyString
  | S n => String " " (spaces n)
  end.

Definition JSON_stringify (value : json) (space : nat) : string :=
  serialize (spaces (Nat.min 10 space)) "" value.

(** *** JSON.parse *)

Definition is_ws (c : ascii) : bool :=
  let n := N_of_ascii c in
  (n =? 32)%N || (n =? 9)%N || (n =? 10)%N || (n =? 13)%N.

Fixpoint skip_ws (s : string) : string :=
  match s with
  | String c s' => if is_ws c then skip_ws s' else s
  | EmptyString => s
  end.

Definition is_digit (c : ascii) : bool :=
  let n := N_of_ascii c in (48 <=? n)%N && (n <=? 57)%N.

Definition is_num_start (c : ascii) : bool := is_digit c || Ascii.eqb c "-".

Definition is_num_char (c : ascii) : bool :=
  is_digit c || Ascii.eqb c "-" || Ascii.eqb c "+" || Ascii.eqb c "."
  || Ascii.eqb c "e" || Ascii.eqb c "E".

(** The longest run of number characters at the head of [s], and what
    follows it. *)
Fixpoint span_num (s : string) : string * string :=
  match s with
  | String c s' =>
      if is_num_char c then let (tok, rest) := span_num s' in (String c tok, rest)
      else (EmptyString, s)
  | EmptyString => (EmptyString, EmptyString)
  end.

Definition hex_value (c : ascii) : option N :=
  let n := N_of_ascii c in
  if (48 <=? n)%N && (n <=? 57)%N then Some (n - 48)%N
  else if (97 <=? n)%N && (n <=? 102)%N then Some (n - 87)%N
  else if (65 <=? n)%N && (n <=? 70)%N then Some (n - 55)%N
  else None.

(** The character a [\uXXXX] escape stands for; code units above 255
    are outside the strings of this model. *)
Definition unicode_escape (a b c d : ascii) : option ascii :=
  match hex_value a, hex_value b, hex_value c, hex_value d with
  | Some x, Some y, Some z, Some w =>
      let n := (((x * 16 + y) * 16 + z) * 16 + w)%N in
      if (n <? 256)%N then Some (ascii_of_N n) else None
  | _, _, _, _ => None
  end.

Definition simple_escape (e : ascii) : option ascii :=
  if Ascii.eqb e "034" then Some "034"%char
  else if Ascii.eqb e "092" then Some "092"%char
  else if Ascii.eqb e "/" then Some "/"%char
  else if Ascii.eqb e "b" then Some "008"%char
  else if Ascii.eqb e "f" then Some "012"%char
  else if Ascii.eqb e "n" then Some "010"%char
  else if Ascii.eqb e "r" then Some "013"%char
  else if Ascii.eqb e "t" then Some "009"%char
  else None.

Definition cons_char (c : ascii) (r : option (string * string)) : option (string * string) :=
  match r with
  | Some (s, rest) => Some (String c s, rest)
  | None => None
  end.

(** The characters of a string literal, read after its opening quote,
    up to and including the closing quote. *)
Fixpoint parse_chars (s : string) : option (string * string) :=
  match s with
  | EmptyString => None
  | String c r =>
      if Ascii.eqb c "034" then Some (EmptyString, r)
      else if Ascii.eqb c "092" then
        match r with
        | String e r' =>
            if Ascii.eqb e "u" then
              match r' with
              | String h1 (String h2 (String h3 (String h4 r''))) =>
                  match unicode_escape h1 h2 h3 h4 with
                  | Some ch => cons_char ch (parse_chars r'')
                  | None => None
                  end
              | _ => None
              end
            else
              match simple_escape e with
              | Some ch => cons_char ch (parse_chars r')
              | None => None
              end
        | EmptyString => None
        end
      else if (N_of_ascii c <? 32)%N then None
      else cons_char c (parse_chars r)
  end.

(** [s] continues with the literal [lit]. *)
Fixpoint expect (lit s : string) : option string :=
  match lit, s with
  | EmptyString, _ => Some s
  | String a lit', String b s' => if Ascii.eqb a b then expect lit' s' else None
  | String _ _, EmptyString => None
  end.

(** The value of a run of decimal digits. *)
Fixpoint digits_value (s : string) (acc : N) : option N :=
  match s with
  | EmptyString => Some acc
  | String c s' =>
      if is_digit c then digits_value s' (acc * 10 + (N_of_ascii c - 48))%N else None
  end.

(** The array index a key stands for, if any: a decimal numeral without
    leading zero, below 2^32 - 1.  The host enumerates such keys first,
    in ascending order, and the other keys after them in the order they
    were added. *)
Definition index_value (k : string) : option N :=
  match k with
  | EmptyString => None
  | String c r =>
      if Ascii.eqb c "0" then (if String.eqb r "" then Some 0%N else None)
      else
        match digits_value k 0 with
        | Some n => if (n <? 4294967295)%N then Some n else None
        | None => None
        end
  end.

(** [k1] is enumerated ahead of [k2] when added before it. *)
Definition key_before (k1 k2 : string) : bool :=
  match index_value k1, index_value k2 with
  | Some m, Some n => (m <? n)%N
  | Some _, None => true
  | None, Some _ => false
  | None, None => true
  end.

Definition has_key (k : string) (fields : list (string * json)) : bool :=
  existsb (fun kv => String.eqb k kv.1) fields.

(** A present key keeps its place and takes the new value. *)
Fixpoint replace_field (k : string) (v : json) (fields : list (string * json))
  : list (string * json) :=
  match fields with
  | [] => []
  | (k', v') :: fields' =>
      if String.eqb k k' then (k, v) :: fields' else (k', v') :: replace_field k v fields'
  end.

(** A new key goes behind the keys enumerated ahead of it. *)
Fixpoint add_field (k : string) (v : json) (fields : list (string * json))
  : list (string * json) :=
  match fields with
  | [] => [(k, v)]
  | (k', v') :: fields' =>
      if key_before k' k then (k', v') :: add_field k v fields'
      else (k, v) :: fields
  end.

(** Setting a property while an object is built. *)
Definition set_field (k : string) (v : json) (fields : list (string * json))
  : list (string * json) :=
  if has_key k fields then replace_field k v fields else add_field k v fields.

Definition build_object (members : list (string * json)) : list (string * json) :=
  fold_left (fun acc kv => set_field kv.1 kv.2 acc) members [].

(** After optional white space [s] continues with the character
    [close]; what follows it. *)
Definition closes (close : ascii) (s : string) : option string :=
  match skip_ws s with
  | String c r => if Ascii.eqb c close then Some r else None
  | EmptyString => None
  end.

Definition value_step
  (elements : string -> option (list json * string))
  (members : string -> option (list (string * json) * string))
  (s : string) : option (json * string) :=
  match skip_ws s with
  | EmptyString => None
  | String c r =>
      if Ascii.eqb c "n" then
        match expect "ull" r with Some r' => Some (JNull, r') | None => None end
      else if Ascii.eqb c "t" then
        match expect "rue" r with Some r' => Some (JBool true, r') | None => None end
      else if Ascii.eqb c "f" then
        match expect "alse" r with Some r' => Some (JBool false, r') | None => None end
      else if Ascii.eqb c "034" then
        match parse_chars r with
        | Some (str, r') => Some (JString str, r')
        | None => None
        end
      else if Ascii.eqb c "[" then
        match closes "]" r with
        | Some r' => Some (JArray [], r')
        | None =>
            match elements r with
            | Some (items, r') => Some (JArray items, r')
            | None => None
            end
        end
      else if Ascii.eqb c "{" then
        match closes "}" r with
        | Some r' => Some (JObject [], r')
        | None =>
            match members r with
            | Some (ms, r') => Some (JObject (build_object ms), r')
            | None => None
            end
        end
      else if is_num_start c then
        let (tok, r') := span_num (String c r) in
        match num_of_string tok with
        | Some n => Some (JNumber n, r')
        | None => None
        end
      else None
  end.

(** One element, then a comma and the remaining elements or the
    closing bracket. *)
Definition elements_step
  (value : string -> option (json * string))
  (elements : string -> option (list json * string))
  (s : string) : option (list json * string) :=
  match value s with
  | Some (v, r) =>
      match skip_ws r with
      | String c r' =>
          if Ascii.eqb c "," then
            match elements r' with
            | Some (vs, r'') => Some (v :: vs, r'')
            | None => None
            end
          else if Ascii.eqb c "]" then Some ([v], r')
          else None
      | EmptyString => None
      end
  | None => None
  end.

(** One member [key : value], then a comma and the remaining members
    or the closing brace. *)
Definition members_step
  (value : string -> option (json * string))
  (members : string -> option (list (string * json) * string))
  (s : string) : option (list (string * json) * string) :=
  match closes "034" s with
  | Some r =>
      match parse_chars r with
      | Some (k, r1) =>
          match closes ":" r1 with
          | Some r2 =>
              match value r2 with
              | Some (v, r3) =>
                  match skip_ws r3 with
                  | String c r4 =>
                      if Ascii.eqb c "," then
                        match members r4 with
                        | Some (ms, r5) => Some ((k, v) :: ms, r5)
                        | None => None
                        end
                      else if Ascii.eqb c "}" then Some ([(k, v)], r4)
                      else None
                  | EmptyString => None
                  end
              | None => None
              end
          | None => None
          end
      | None => None
      end
  | None => None
  end.

(** The recursive descent; [fuel] bounds the nesting of calls, and a
    text never needs more than its length. *)
Fixpoint parse_value (fuel : nat) (s : string) : option (json * string) :=
  match fuel with
  | O => None
  | S fuel => value_step (parse_elements fuel) (parse_members fuel) s
  end

with parse_elements (fuel : nat) (s : string) : option (list json * string) :=
  match fuel with
  | O => None
  | S fuel => elements_step (parse_value fuel) (parse_elements fuel) s
  end

with parse_members (fuel : nat) (s : string) : option (list (string * json) * string) :=
  match fuel with
  | O => None
  | S fuel => members_step (parse_value fuel) (parse_members fuel) s
  end.

Definition JSON_parse (text : string) : option json :=
  match parse_value (S (String.length text)) text with
  | Some (v, rest) =>
      match skip_ws rest with
      | EmptyString => Some v
      | _ => None
      end
  | None => None
  end.


(** *** downloadJSON *)

(** What the browser is handed: the blob's text and type, and the name
    of the file. *)
Record Download := { content : string; mime_type : string; filename : string }.

Definition downloadJSON (result : json) : Download :=
  {| content := JSON_stringify result 2;
     mime_type := "application/json";
     filename := "finforge_fraud_report.json" |}.

(** *** Well-formed values and structural induction *)

Section Induction.
Variable P : json -> Prop.
Hypothesis Hnull : P JNull.
Hypothesis Hbool : forall b, P (JBool b).
Hypothesis Hnumber : forall n, P (JNumber n).
Hypothesis Hstring : forall s, P (JString s).
Hypothesis Harray : forall items, Forall P items -> P (JArray items).
Hypothesis Hobject : forall fields, Forall (fun kv => P kv.2) fields -> P (JObject fields).

Fixpoint json_induction (v : json) : P v :=
  match v with
  | JNull => Hnull
  | JBool b => Hbool b
  | JNumber n => Hnumber n
  | JString s => Hstring s
  | JArray items =>
      Harray items
        ((fix go (l : list json) : Forall P l :=
            match l with
            | [] => @List.Forall_nil _ P
            | x :: l' => @List.Forall_cons _ P x l' (json_induction x) (go l')
            end) items)
  | JObject fields =>
      Hobject fields
        ((fix go (l : list (string * json)) : Forall (fun kv => P kv.2) l :=
            match l with
            | [] => @List.Forall_nil _ _
            | kv :: l' => @List.Forall_cons _ _ kv l' (json_induction kv.2) (go l')
            end) fields)
  end.
End Induction.

(** The keys are listed in the order the host enumerates them. *)
Definition enumeration_order (keys : list string) : Prop :=
  StronglySorted (fun k1 k2 => key_before k1 k2 = true) keys.

(** A value of the host: the keys of an object are distinct and listed
    in enumeration order. *)
Fixpoint wf (v : json) : Prop :=
  match v with
  | JArray items => fold_right (fun x acc => wf x /\ acc) True items
  | JObject fields =>
      NoDup fields.*1 /\ enumeration_order fields.*1 /\
      fold_right (fun kv acc => wf kv.2 /\ acc) True fields
  | _ => True
  end.

(** Number of parser steps a value takes. *)
Fixpoint size (v : json) : nat :=
  match v with
  | JArray items => S (fold_right (fun x acc => S (size x) + acc) O items)
  | JObject fields => S (fold_right (fun kv acc => S (size kv.2) + acc) O fields)
  | _ => 1
  end.

(** *** The serialisation written in front of a continuation

    [emit gap indent v k] is the text of [v] followed by [k], for a
    non-empty gap; it is the form the parser is run on. *)
Definition rest_items (one : json -> string -> string) (indent : string)
  (items : list json) (k : string) : string :=
  fold_right (fun y acc => "," +:+ nl +:+ indent +:+ one y acc) k items.

Definition member (one : json -> string -> string) (kv : string * json) (k : string)
  : string :=
  String "034" (escape kv.1 (String "034" (":" +:+ " " +:+ one kv.2 k))).

Definition rest_members (one : json -> string -> string) (indent : string)
  (fields : list (string * json)) (k : string) : string :=
  fold_right (fun kv acc => "," +:+ nl +:+ indent +:+ member one kv acc) k fields.

Fixpoint emit (gap indent : string) (v : json) (k : string) : string :=
  match v with
  | JNull => "null" +:+ k
  | JBool true => "true" +:+ k
  | JBool false => "false" +:+ k
  | JNumber n => num_to_string n +:+ k
  | JString s => String "034" (escape s (String "034" k))
  | JArray [] => "[]" +:+ k
  | JArray (x :: items) =>
      let inner := indent +:+ gap in
      "[" +:+ nl +:+ inner +:+
        emit gap inner x
          (rest_items (emit gap inner) inner items (nl +:+ indent +:+ "]" +:+ k))
  | JObject [] => "{}" +:+ k
  | JObject (kv :: fields) =>
      let inner := indent +:+ gap in
      "{" +:+ nl +:+ inner +:+
        member (emit gap inner) kv
          (rest_members (emit gap inner) inner fields (nl +:+ indent +:+ "}" +:+ k))
  end.

(** *** Notions used to state the round trip *)

Fixpoint all_spaces (s : string) : bool :=
  match s with
  | EmptyString => true
  | String c s' => Ascii.eqb c " " && all_spaces s'
  end.

(** The characters a serialised value can begin with. *)
Definition value_start (c : ascii) : bool :=
  Ascii.eqb c "n" || Ascii.eqb c "t" || Ascii.eqb c "f" || Ascii.eqb c "034"
  || Ascii.eqb c "[" || Ascii.eqb c "{" || is_num_start c.

Fixpoint all_num_chars (s : string) : bool :=
  match s with
  | EmptyString => true
  | String c s' => is_num_char c && all_num_chars s'
  end.

(** A number token: it begins like a number and has number characters
    only. *)
Definition is_token (s : string) : bool :=
  match s with
  | EmptyString => false
  | String c _ => is_num_start c && all_num_chars s
  end.

(** What may follow a value: the end of the text, or a character that
    cannot continue a number. *)
Definition follows (k : string) : Prop :=
  match k with
  | EmptyString => True
  | String c _ => is_num_char c = false
  end.

(** [v] is read back from what [emit] writes for it, whatever follows. *)
Definition parses_with (gap : string) (v : json) : Prop :=
  forall indent k fuel,
    all_spaces indent = true -> follows k -> (size v <= fuel)%nat ->
    parse_value fuel (emit gap indent v k) = Some (v, k).

Definition items_size (items : list json) : nat :=
  fold_right (fun x acc => S (size x) + acc)%nat O items.

Definition fields_size (fields : list (string * json)) : nat :=
  fold_right (fun kv acc => S (size kv.2) + acc)%nat O fields.

Definition fields_ok (fields : list (string * json)) : Prop :=
  fold_right (fun kv acc => wf kv.2 /\ acc) True fields.

(** *** White space and first characters *)

Lemma all_spaces_spaces n : all_spaces (spaces n) = true.
Proof. induction n as [ | n IH ]; simpl; [ reflexivity | exact IH ]. Qed.

Lemma all_spaces_app a b : all_spaces (a +:+ b) = all_spaces a && all_spaces b.
Proof.
  induction a as [ | c a IH ]; simpl; [ reflexivity | ].
  now rewrite IH, andb_assoc.
Qed.

Lemma skip_ws_spaces w s : all_spaces w = true -> skip_ws (w +:+ s) = skip_ws s.
Proof.
  induction w as [ | c w IH ]; simpl; [ reflexivity | ].
  rewrite andb_true_iff. intros [ Hc Hw ]. apply Ascii.eqb_eq in Hc. subst c.
  simpl. now apply IH.
Qed.

Lemma skip_ws_line w s : all_spaces w = true -> skip_ws (nl +:+ w +:+ s) = skip_ws s.
Proof. intros H. change (skip_ws (w +:+ s) = skip_ws s). now apply skip_ws_spaces. Qed.

Ltac by_cases_on c :=
  destruct c as [ [ | ] [ | ] [ | ] [ | ] [ | ] [ | ] [ | ] [ | ] ];
  try discriminate; try reflexivity; repeat split; try reflexivity.

Lemma value_start_facts c :
  value_start c = true ->
  is_ws c = false /\ Ascii.eqb c "]" = false /\ Ascii.eqb c "}" = false.
Proof. by_cases_on c. Qed.

Lemma num_start_facts c :
  is_num_start c = true ->
  is_ws c = false /\ Ascii.eqb c "n" = false /\ Ascii.eqb c "t" = false /\
  Ascii.eqb c "f" = false /\ Ascii.eqb c "034" = false /\
  Ascii.eqb c "[" = false /\ Ascii.eqb c "{" = false.
Proof. by_cases_on c. Qed.

Lemma skip_ws_head c r : is_ws c = false -> skip_ws (String c r) = String c r.
Proof. intros H. simpl. now rewrite H. Qed.

Lemma skip_ws_value c r : value_start c = true -> skip_ws (String c r) = String c r.
Proof. intros H. apply value_start_facts in H as (H & _). now apply skip_ws_head. Qed.

(** *** String literals *)

Lemma parse_chars_escape_char c s :
  parse_chars (escape_char c s) = cons_char c (parse_chars s).
Proof.
  destruct c as [ [ | ] [ | ] [ | ] [ | ] [ | ] [ | ] [ | ] [ | ] ]; reflexivity.
Qed.

Lemma parse_chars_escape s k :
  parse_chars (escape s (String "034" k)) = Some (s, k).
Proof.
  induction s as [ | c s IH ]; [ reflexivity | ].
  cbn [escape]. now rewrite parse_chars_escape_char, IH.
Qed.

(** *** Number tokens *)

Lemma span_num_token tok k :
  all_num_chars tok = true -> follows k -> span_num (tok +:+ k) = (tok, k).
Proof.
  intros Htok Hk. induction tok as [ | c tok IH ].
  - simpl. destruct k as [ | c k ]; [ reflexivity | ]. simpl in *. now rewrite Hk.
  - simpl in *. apply andb_true_iff in Htok as [ Hc Htok ].
    now rewrite Hc, (IH Htok).
Qed.

(** *** Parsing what [emit] wrote *)

Hypothesis num_roundtrip : forall n, num_of_string (num_to_string n) = Some n.
Hypothesis num_token : forall n, is_token (num_to_string n) = true.

Section Gap.
Variable gap : string.
Hypothesis gap_spaces : all_spaces gap = true.

Local Abbreviation parses := (parses_with gap).

Lemma emit_head indent v k :
  exists c r, emit gap indent v k = String c r /\ value_start c = true.
Proof.
  destruct v as [ | [ | ] | n | s | [ | x items ] | [ | [ key x ] fields ] ];
    try (eexists _, _; split; reflexivity).
  pose proof (num_token n) as H. cbn [emit].
  destruct (num_to_string n) as [ | c t ]; [ discriminate | ].
  exists c, (t +:+ k). split; [ reflexivity | ].
  cbn [is_token] in H. apply andb_true_iff in H as [ H _ ].
  unfold value_start. rewrite H. now rewrite !orb_true_r.
Qed.

Lemma skip_ws_emit indent v k : skip_ws (emit gap indent v k) = emit gap indent v k.
Proof.
  destruct (emit_head indent v k) as (c & r & -> & H). now apply skip_ws_value.
Qed.

Lemma parse_value_skip f s s' :
  skip_ws s = skip_ws s' -> parse_value f s = parse_value f s'.
Proof.
  intros H. destruct f as [ | f ]; [ reflexivity | ].
  cbn [parse_value]. unfold value_step. now rewrite H.
Qed.

Lemma parse_value_line f w s :
  all_spaces w = true -> parse_value f (nl +:+ w +:+ s) = parse_value f s.
Proof. intros H. apply parse_value_skip. now apply skip_ws_line. Qed.

Lemma closes_line_emit close w indent v k :
  all_spaces w = true -> Ascii.eqb close "]" || Ascii.eqb close "}" = true ->
  closes close (nl +:+ w +:+ emit gap indent v k) = None.
Proof.
  intros Hw Hc. unfold closes. rewrite skip_ws_line by exact Hw.
  destruct (emit_head indent v k) as (c & r & -> & H).
  rewrite skip_ws_value by exact H.
  apply value_start_facts in H as (_ & H1 & H2).
  apply orb_true_iff in Hc as [ Hc | Hc ]; apply Ascii.eqb_eq in Hc; subst close.
  - now rewrite H1.
  - now rewrite H2.
Qed.

Lemma parse_atoms :
  parses JNull /\ (forall b, parses (JBool b)) /\
  (forall n, parses (JNumber n)) /\ (forall s, parses (JString s)).
Proof.
  repeat split.
  - intros indent k [ | f ] _ _ Hf; [ simpl in Hf; lia | reflexivity ].
  - intros b indent k [ | f ] _ _ Hf; [ simpl in Hf; lia | destruct b; reflexivity ].
  - intros n indent k [ | f ] _ Hk Hf; [ simpl in Hf; lia | ].
    cbn [parse_value emit]. unfold value_step.
    pose proof (num_token n) as H.
    pose proof (num_roundtrip n) as Hr.
    destruct (num_to_string n) as [ | c t ] eqn:E; [ discriminate | ].
    cbn [is_token] in H. apply andb_true_iff in H as [ Hs Ha ].
    destruct (num_start_facts c Hs) as (Hw & H1 & H2 & H3 & H4 & H5 & H6).
    change (String c t +:+ k) with (String c (t +:+ k)).
    cbn [skip_ws]. rewrite Hw, H1, H2, H3, H4, H5, H6, Hs.
    change (String c (t +:+ k)) with (String c t +:+ k).
    rewrite (span_num_token _ _ Ha Hk). now rewrite Hr.
  - intros s indent k [ | f ] _ _ Hf; [ simpl in Hf; lia | ].
    cbn [parse_value emit]. unfold value_step.
    rewrite skip_ws_value by reflexivity. cbn.
    now rewrite parse_chars_escape.
Qed.

Lemma rest_items_cons one indent y items k :
  rest_items one indent (y :: items) k
  = String "," (nl +:+ indent +:+ one y (rest_items one indent items k)).
Proof. reflexivity. Qed.

Lemma rest_members_cons one indent kv fields k :
  rest_members one indent (kv :: fields) k
  = String "," (nl +:+ indent +:+ member one kv (rest_members one indent fields k)).
Proof. reflexivity. Qed.

Lemma follows_rest_items one inner indent items k :
  follows (rest_items one inner items (nl +:+ indent +:+ k)).
Proof. destruct items; reflexivity. Qed.

Lemma follows_rest_members one inner indent fields k :
  follows (rest_members one inner fields (nl +:+ indent +:+ k)).
Proof. destruct fields; reflexivity. Qed.

Lemma parse_rest_items inner indent k items :
  all_spaces inner = true -> all_spaces indent = true ->
  Forall parses items ->
  forall x f, parses x -> (S (size x) + items_size items <= f)%nat ->
    parse_elements f
      (nl +:+ inner +:+
         emit gap inner x
           (rest_items (emit gap inner) inner items (nl +:+ indent +:+ "]" +:+ k)))
    = Some (x :: items, k).
Proof.
  intros Hinner Hindent Hall.
  induction Hall as [ | y items Hy Hall IH ]; intros x f Hx Hf.
  - destruct f as [ | f ]; [ lia | ]. simpl in Hf.
    cbn [parse_elements]. unfold elements_step.
    rewrite parse_value_line by exact Hinner.
    rewrite (Hx inner _ f Hinner) by (reflexivity || lia).
    cbn [rest_items fold_right]. rewrite skip_ws_line by exact Hindent.
    reflexivity.
  - destruct f as [ | f ]; [ lia | ]. cbn [items_size fold_right] in Hf.
    fold (items_size items) in Hf.
    cbn [parse_elements]. unfold elements_step.
    rewrite parse_value_line by exact Hinner.
    rewrite (Hx inner _ f Hinner) by (apply follows_rest_items || lia).
    rewrite rest_items_cons.
    rewrite skip_ws_head by reflexivity.
    change (Ascii.eqb "," ",") with true. cbv iota.
    rewrite (IH y f Hy) by lia. reflexivity.
Qed.

Lemma parse_array items : Forall parses items -> parses (JArray items).
Proof.
  intros Hall indent k fuel Hindent Hk Hf.
  destruct fuel as [ | f ]; [ simpl in Hf; lia | ].
  destruct items as [ | x items ]; [ reflexivity | ].
  apply Forall_cons in Hall as [ Hx Hall ].
  cbn [size] in Hf. fold (items_size (x :: items)) in Hf.
  cbn [items_size fold_right] in Hf. fold (items_size items) in Hf.
  assert (Hinner : all_spaces (indent +:+ gap) = true).
  { rewrite all_spaces_app, Hindent, gap_spaces. reflexivity. }
  cbn [parse_value emit]. unfold value_step.
  change ("[" +:+ ?s) with (String "[" s).
  rewrite skip_ws_value by reflexivity.
  change (Ascii.eqb "[" "n") with false. change (Ascii.eqb "[" "t") with false.
  change (Ascii.eqb "[" "f") with false. change (Ascii.eqb "[" "034") with false.
  change (Ascii.eqb "[" "[") with true. cbv iota.
  rewrite closes_line_emit by (exact Hinner || reflexivity).
  rewrite (parse_rest_items _ _ _ _ Hinner Hindent Hall x f Hx) by lia.
  reflexivity.
Qed.

Lemma parse_rest_members inner indent k fields :
  all_spaces inner = true -> all_spaces indent = true ->
  Forall (fun kv => parses kv.2) fields ->
  forall kv f, parses kv.2 -> (S (size kv.2) + fields_size fields <= f)%nat ->
    parse_members f
      (nl +:+ inner +:+
         member (emit gap inner) kv
           (rest_members (emit gap inner) inner fields (nl +:+ indent +:+ "}" +:+ k)))
    = Some (kv :: fields, k).
Proof.
  intros Hinner Hindent Hall.
  assert (Hkey : forall f key x rest,
             members_step (parse_value f) (parse_members f)
               (nl +:+ inner +:+ member (emit gap inner) (key, x) rest)
             = match parse_value f (emit gap inner x rest) with
               | Some (v, r3) =>
                   match skip_ws r3 with
                   | String c r4 =>
                       if Ascii.eqb c "," then
                         match parse_members f r4 with
                         | Some (ms, r5) => Some ((key, v) :: ms, r5)
                         | None => None
                         end
                       else if Ascii.eqb c "}" then Some ([(key, v)], r4)
                       else None
                   | EmptyString => None
                   end
               | None => None
               end).
  { intros f key x rest. unfold members_step, member.
    unfold closes at 1. rewrite skip_ws_line by exact Hinner.
    rewrite skip_ws_head by reflexivity.
    change (Ascii.eqb "034" "034") with true. cbv iota.
    cbn [fst snd]. rewrite parse_chars_escape.
    change (":" +:+ " " +:+ ?t) with (String ":" (String " " t)).
    unfold closes. rewrite skip_ws_head by reflexivity.
    change (Ascii.eqb ":" ":") with true. cbv iota.
    now rewrite (parse_value_skip f (String " " (emit gap inner x rest))
                   (emit gap inner x rest)). }
  induction Hall as [ | kv' fields Hy Hall IH ]; intros [ key x ] f Hx Hf; cbn [snd] in *.
  - destruct f as [ | f ]; [ lia | ]. simpl in Hf.
    cbn [parse_members]. rewrite Hkey.
    rewrite (Hx inner _ f Hinner) by (reflexivity || lia).
    cbn [rest_members fold_right]. rewrite skip_ws_line by exact Hindent.
    reflexivity.
  - destruct f as [ | f ]; [ lia | ]. cbn [fields_size fold_right] in Hf.
    fold (fields_size fields) in Hf.
    cbn [parse_members]. rewrite Hkey.
    rewrite (Hx inner _ f Hinner) by (apply follows_rest_members || lia).
    rewrite rest_members_cons.
    rewrite skip_ws_head by reflexivity.
    change (Ascii.eqb "," ",") with true. cbv iota.
    rewrite (IH kv' f Hy) by lia. reflexivity.
Qed.

Lemma has_key_false k fields : k ∉ fields.*1 -> has_key k fields = false.
Proof.
  induction fields as [ | [ k' v' ] fields IH ]; [ reflexivity | ].
  cbn [fmap list_fmap fst]. rewrite not_elem_of_cons. intros [ Hne Hnot ].
  cbn [has_key existsb fst]. apply String.eqb_neq in Hne. rewrite Hne.
  apply (IH Hnot).
Qed.

Lemma add_field_last k v fields :
  Forall (fun k' => key_before k' k = true) fields.*1 ->
  add_field k v fields = fields ++ [(k, v)].
Proof.
  induction fields as [ | [ k' v' ] fields IH ]; [ reflexivity | ].
  cbn [fmap list_fmap fst]. intros H. apply Forall_cons in H as [ Hk H ].
  cbn [add_field app]. rewrite Hk. now rewrite (IH H).
Qed.

Lemma build_object_fresh members acc :
  NoDup (acc ++ members).*1 -> enumeration_order (acc ++ members).*1 ->
  fold_left (fun acc kv => set_field kv.1 kv.2 acc) members acc = acc ++ members.
Proof.
  revert acc. induction members as [ | [ k v ] members IH ]; intros acc Hnd Hord.
  - now rewrite app_nil_r.
  - cbn [fold_left fst snd].
    assert (Hk : k ∉ acc.*1).
    { rewrite fmap_app in Hnd. apply NoDup_app in Hnd as (_ & Hd & _).
      intros Hin. apply (Hd k Hin). cbn. apply elem_of_cons. now left. }
    assert (Hb : Forall (fun k' => key_before k' k = true) acc.*1).
    { unfold enumeration_order in Hord. rewrite fmap_app in Hord.
      rewrite Forall_forall. intros k' Hin.
      apply (StronglySorted_app_1_elem_of _ _ _ k' k Hord Hin).
      cbn. apply elem_of_cons. now left. }
    unfold set_field at 2. rewrite (has_key_false k acc Hk), (add_field_last k v acc Hb).
    rewrite IH; rewrite <- app_assoc; [ reflexivity | exact Hnd | exact Hord ].
Qed.

Lemma build_object_id members :
  NoDup members.*1 -> enumeration_order members.*1 -> build_object members = members.
Proof. intros H1 H2. unfold build_object. now rewrite build_object_fresh. Qed.

Lemma fields_ok_wf fields : fields_ok fields -> Forall (fun kv => wf kv.2) fields.
Proof.
  induction fields as [ | kv fields IH ]; [ constructor | ].
  intros (Hw & Hrest). constructor; [ exact Hw | now apply IH ].
Qed.

Lemma items_wf items :
  fold_right (fun x acc => wf x /\ acc) True items -> Forall wf items.
Proof.
  induction items as [ | x items IH ]; [ constructor | ].
  intros [ Hw Hrest ]. constructor; [ exact Hw | now apply IH ].
Qed.

Lemma parse_object fields :
  NoDup fields.*1 -> enumeration_order fields.*1 ->
  Forall (fun kv => parses kv.2) fields -> parses (JObject fields).
Proof.
  intros Hnd Hord Hall indent k fuel Hindent Hk Hf.
  destruct fuel as [ | f ]; [ simpl in Hf; lia | ].
  destruct fields as [ | kv fields ]; [ reflexivity | ].
  pose proof Hall as Hall'. apply Forall_cons in Hall' as [ Hx Hall' ].
  cbn [size] in Hf. fold (fields_size (kv :: fields)) in Hf.
  cbn [fields_size fold_right] in Hf. fold (fields_size fields) in Hf.
  assert (Hinner : all_spaces (indent +:+ gap) = true).
  { rewrite all_spaces_app, Hindent, gap_spaces. reflexivity. }
  cbn [parse_value emit]. unfold value_step.
  change ("{" +:+ ?s) with (String "{" s).
  rewrite skip_ws_head by reflexivity.
  change (Ascii.eqb "{" "n") with false. change (Ascii.eqb "{" "t") with false.
  change (Ascii.eqb "{" "f") with false. change (Ascii.eqb "{" "034") with false.
  change (Ascii.eqb "{" "[") with false. change (Ascii.eqb "{" "{") with true.
  cbv iota.
  assert (Hcl : closes "}"
                  (nl +:+ (indent +:+ gap) +:+
                     member (emit gap (indent +:+ gap)) kv
                       (rest_members (emit gap (indent +:+ gap)) (indent +:+ gap) fields
                          (nl +:+ indent +:+ "}" +:+ k))) = None).
  { unfold closes, member. rewrite skip_ws_line by exact Hinner.
    rewrite skip_ws_head by reflexivity. reflexivity. }
  rewrite Hcl.
  rewrite (parse_rest_members _ _ _ _ Hinner Hindent Hall' kv f Hx) by lia.
  rewrite (build_object_id _ Hnd Hord). reflexivity.
Qed.

(** Every well-formed value is read back from its serialisation,
    whatever follows it. *)
Lemma parse_emit v : wf v -> parses v.
Proof.
  induction v as [ | b | n | s | items IH | fields IH ] using json_induction;
    intros Hwf.
  - apply parse_atoms.
  - apply parse_atoms.
  - apply parse_atoms.
  - apply parse_atoms.
  - apply parse_array. apply items_wf in Hwf.
    rewrite Forall_forall in IH, Hwf |- *. intros x Hx. apply IH; [ exact Hx | now apply Hwf ].
  - destruct Hwf as (Hnd & Hord & Hok).
    apply parse_object; [ exact Hnd | exact Hord | ].
    apply fields_ok_wf in Hok.
    rewrite Forall_forall in IH, Hok |- *. intros x Hx. apply IH; [ exact Hx | now apply Hok ].
Qed.

(** *** [emit] writes the serialisation *)

Lemma escape_char_append c a b : escape_char c a +:+ b = escape_char c (a +:+ b).
Proof.
  destruct c as [ [ | ] [ | ] [ | ] [ | ] [ | ] [ | ] [ | ] [ | ] ]; reflexivity.
Qed.

Lemma escape_append s a b : escape s a +:+ b = escape s (a +:+ b).
Proof.
  induction s as [ | c s IH ]; [ reflexivity | ].
  cbn [escape]. now rewrite escape_char_append, IH.
Qed.

Lemma quote_append s k : quote s +:+ k = String "034" (escape s (String "034" k)).
Proof. unfold quote. now rewrite JS.append_cons, escape_append. Qed.

Lemma join_rest {A} (one : A -> string -> string) (f : A -> string) inner l :
  Forall (fun y => forall k, one y k = f y +:+ k) l ->
  forall x tail, (forall k, one x k = f x +:+ k) ->
    one x (fold_right (fun y acc => "," +:+ nl +:+ inner +:+ one y acc) tail l)
    = JS.join ("," +:+ nl +:+ inner) (f x :: List.map f l) +:+ tail.
Proof.
  induction 1 as [ | y l Hy Hall IH ]; intros x tail Hx.
  - cbn [fold_right List.map JS.join]. apply Hx.
  - cbn [fold_right List.map]. rewrite Hx, (IH y tail Hy).
    change (JS.join ?sep (f x :: f y :: ?l'))
      with (f x +:+ sep +:+ JS.join sep (f y :: l')).
    now rewrite !JS.append_assoc.
Qed.

Hypothesis gap_nonempty : String.eqb gap "" = false.

Lemma emit_serialize v :
  forall indent k, emit gap indent v k = serialize gap indent v +:+ k.
Proof.
  induction v as [ | b | n | s | items IH | fields IH ] using json_induction;
    intros indent k.
  - reflexivity.
  - destruct b; reflexivity.
  - reflexivity.
  - cbn [emit serialize]. now rewrite quote_append.
  - destruct items as [ | x items ]; [ reflexivity | ].
    apply Forall_cons in IH as [ Hx Hall ].
    cbn [emit serialize List.map]. cbv zeta. rewrite gap_nonempty.
    unfold rest_items.
    rewrite (join_rest (emit gap (indent +:+ gap)) (serialize gap (indent +:+ gap))
               (indent +:+ gap) items).
    + now rewrite !JS.append_assoc.
    + rewrite Forall_forall in Hall |- *. intros y Hy k'. now apply Hall.
    + intros k'. apply Hx.
  - destruct fields as [ | kv fields ]; [ reflexivity | ].
    apply Forall_cons in IH as [ Hx Hall ].
    cbn [emit serialize List.map]. cbv zeta. rewrite gap_nonempty.
    unfold rest_members.
    rewrite (join_rest (member (emit gap (indent +:+ gap)))
               (fun kv => quote kv.1 +:+ ":" +:+ " " +:+ serialize gap (indent +:+ gap) kv.2)
               (indent +:+ gap) fields).
    + now rewrite !JS.append_assoc.
    + rewrite Forall_forall in Hall |- *. intros y Hy k'.
      unfold member. rewrite (Hall y Hy). rewrite !JS.append_assoc.
      now rewrite quote_append.
    + intros k'. unfold member. rewrite Hx. rewrite !JS.append_assoc.
      now rewrite quote_append.
Qed.

(** *** The text is long enough to serve as fuel *)

Lemma escape_char_length c k :
  (String.length k <= String.length (escape_char c k))%nat.
Proof.
  unfold escape_char.
  repeat match goal with
         | |- context [ if ?b then _ else _ ] => destruct b
         end; cbn [String.length]; lia.
Qed.

Lemma escape_length s k : (String.length k <= String.length (escape s k))%nat.
Proof.
  induction s as [ | c s IH ]; cbn [escape]; [ lia | ].
  pose proof (escape_char_length c (escape s k)). lia.
Qed.

Lemma rest_length {A} (one : A -> string -> string) (sz : A -> nat) inner l :
  Forall (fun y => forall k, (sz y + String.length k <= String.length (one y k))%nat) l ->
  forall tail,
    (fold_right (fun y acc => S (sz y) + acc)%nat O l + String.length tail
     <= String.length
          (fold_right (fun y acc => "," +:+ nl +:+ inner +:+ one y acc) tail l))%nat.
Proof.
  induction 1 as [ | y l Hy Hall IH ]; intros tail; cbn [fold_right]; [ lia | ].
  change ("," +:+ nl +:+ ?t) with (String "," (String "010" t)).
  cbn [String.length]. rewrite JS.length_append.
  pose proof (Hy (fold_right (fun y acc => "," +:+ nl +:+ inner +:+ one y acc) tail l)).
  pose proof (IH tail). lia.
Qed.

Lemma closing_length indent c k :
  (String.length k <= String.length (nl +:+ indent +:+ String c k))%nat.
Proof.
  change (nl +:+ ?t) with (String "010" t). cbn [String.length].
  rewrite JS.length_append. cbn [String.length]. lia.
Qed.

Lemma member_length (kv : string * json) indent k :
  (forall k', (size kv.2 + String.length k' <= String.length (emit gap indent kv.2 k'))%nat) ->
  (size kv.2 + String.length k <= String.length (member (emit gap indent) kv k))%nat.
Proof.
  intros H. unfold member.
  pose proof (escape_length kv.1 (String "034" (":" +:+ " " +:+ emit gap indent kv.2 k))) as He.
  change (":" +:+ " " +:+ ?t) with (String ":" (String " " t)) in *.
  cbn [String.length] in *. pose proof (H k). lia.
Qed.

Lemma emit_length v :
  forall indent k,
    (size v + String.length k <= String.length (emit gap indent v k))%nat.
Proof.
  induction v as [ | b | n | s | items IH | fields IH ] using json_induction;
    intros indent k.
  - cbn [emit size]. rewrite ?JS.append_cons, ?JS.append_nil_l. cbn [String.length]. lia.
  - destruct b; cbn [emit size]; rewrite ?JS.append_cons, ?JS.append_nil_l;
      cbn [String.length]; lia.
  - cbn [emit size]. rewrite JS.length_append.
    pose proof (num_token n) as H.
    destruct (num_to_string n); [ discriminate | cbn [String.length]; lia ].
  - cbn [emit size String.length].
    pose proof (escape_length s (String "034" k)) as H. cbn [String.length] in H. lia.
  - destruct items as [ | x items ].
    { cbn [emit size fold_right]. rewrite ?JS.append_cons, ?JS.append_nil_l.
      cbn [String.length]. lia. }
    apply Forall_cons in IH as [ Hx Hall ].
    cbn [emit size fold_right]. cbv zeta.
    pose proof (closing_length indent "]" k) as Hc.
    change ("]" +:+ k) with (String "]" k).
    set (tail := nl +:+ indent +:+ String "]" k) in *.
    set (inner := indent +:+ gap).
    change ("[" +:+ nl +:+ ?t) with (String "[" (String "010" t)).
    cbn [String.length]. rewrite JS.length_append.
    pose proof (Hx inner (rest_items (emit gap inner) inner items tail)) as H1.
    assert (H2 : (items_size items + String.length tail
                  <= String.length (rest_items (emit gap inner) inner items tail))%nat).
    { apply (rest_length (emit gap inner) size inner items).
      rewrite Forall_forall in Hall |- *. intros y Hy k'. now apply Hall. }
    unfold items_size in H2. lia.
  - destruct fields as [ | kv fields ].
    { cbn [emit size fold_right]. rewrite ?JS.append_cons, ?JS.append_nil_l.
      cbn [String.length]. lia. }
    apply Forall_cons in IH as [ Hx Hall ].
    cbn [emit size fold_right]. cbv zeta.
    pose proof (closing_length indent "}" k) as Hc.
    change ("}" +:+ k) with (String "}" k).
    set (tail := nl +:+ indent +:+ String "}" k) in *.
    set (inner := indent +:+ gap).
    change ("{" +:+ nl +:+ ?t) with (String "{" (String "010" t)).
    cbn [String.length]. rewrite JS.length_append.
    pose proof (member_length kv inner
                  (rest_members (emit gap inner) inner fields tail) (Hx inner)) as H1.
    assert (H2 : (fields_size fields + String.length tail
                  <= String.length (rest_members (emit gap inner) inner fields tail))%nat).
    { apply (rest_length (member (emit gap inner)) (fun kv => size kv.2) inner fields).
      rewrite Forall_forall in Hall |- *. intros y Hy k'.
      apply member_length. now apply Hall. }
    unfold fields_size in H2. lia.
Qed.

Lemma parse_serialize v :
  wf v ->
  parse_value (S (String.length (serialize gap "" v))) (serialize gap "" v)
  = Some (v, EmptyString).
Proof.
  intros Hwf.
  pose proof (emit_serialize v "" "") as E. rewrite JS.append_nil_r in E.
  rewrite <- E. apply parse_emit; [ exact Hwf | reflexivity | exact I | ].
  pose proof (emit_length v "" ""). cbn [String.length] in *. lia.
Qed.

End Gap.

(** C9.  The exported text is [JSON.stringify(result, null, 2)], and
    parsing it gives the report back. *)
Theorem download_roundtrip (result : json) :
  wf result ->
  content (downloadJSON result) = JSON_stringify result 2 /\
  JSON_parse (content (downloadJSON result)) = Some result.
Proof.
  intros Hwf. split; [ reflexivity | ].
  cbn [downloadJSON content]. unfold JSON_parse, JSON_stringify.
  change (spaces (Nat.min 10 2)) with "  ".
  rewrite (parse_serialize "  " eq_refl eq_refl result Hwf). reflexivity.
Qed.

End Json.

(** *** An instance: whole numbers in decimal *)

Definition nat_to_string (n : nat) : string := NilEmpty.string_of_uint (Nat.to_uint n).

Definition nat_of_string (s : string) : option nat :=
  match s with
  | EmptyString => None
  | _ => Nat.of_uint <$> NilEmpty.uint_of_string s
  end.

Lemma nat_to_string_nonempty n : nat_to_string n <> EmptyString.
Proof.
  unfold nat_to_string. intros E.
  pose proof (NilEmpty.usu (Nat.to_uint n)) as H. rewrite E in H.
  injection H as H. pose proof (DecimalNat.Unsigned.of_to n) as Hn.
  rewrite <- H in Hn. cbn in Hn. subst n. discriminate.
Qed.

Lemma nat_roundtrip n : nat_of_string (nat_to_string n) = Some n.
Proof.
  pose proof (nat_to_string_nonempty n) as Hne. unfold nat_of_string.
  destruct (nat_to_string n) as [ | c t ] eqn:E; [ contradiction | ].
  rewrite <- E. unfold nat_to_string. rewrite NilEmpty.usu.
  cbn [fmap option_fmap option_map]. now rewrite DecimalNat.Unsigned.of_to.
Qed.

Lemma uint_digits d : all_num_chars (NilEmpty.string_of_uint d) = true /\
  match NilEmpty.string_of_uint d with
  | EmptyString => True
  | String c _ => is_num_start c = true
  end.
Proof.
  induction d as [ | d [ IH _ ] | d [ IH _ ] | d [ IH _ ] | d [ IH _ ] | d [ IH _ ]
                 | d [ IH _ ] | d [ IH _ ] | d [ IH _ ] | d [ IH _ ] | d [ IH _ ] ];
    cbn [NilEmpty.string_of_uint all_num_chars]; rewrite ?IH; split; reflexivity.
Qed.

Lemma nat_token n : is_token (nat_to_string n) = true.
Proof.
  pose proof (nat_to_string_nonempty n) as Hne.
  pose proof (uint_digits (Nat.to_uint n)) as [ Ha Hs ].
  unfold nat_to_string in *.
  destruct (NilEmpty.string_of_uint (Nat.to_uint n)) as [ | c t ]; [ contradiction | ].
  cbn [is_token]. now rewrite Hs, Ha.
Qed.

(** A small report. *)
Definition sample_report : json :=
  JObject
    [ ("summary",
       JObject [ ("total_accounts_analyzed", JNumber 1250);
                 ("fraud_rings_detected", JNumber 1) ]);
      ("suspicious_accounts",
       JArray [ JObject [ ("account_id", JString "ACC_00123");
                          ("suspicion_score", JNumber 89);
                          ("ring_id", JNull);
                          ("detected_patterns",
                           JArray [ JString "cycle_length_3"; JString "amount_decay" ]) ] ]);
      ("fraud_rings",
       JArray [ JObject [ ("ring_id", JString "R001");
                          ("member_accounts", JArray []);
                          ("note", JString (String "009" (String "034" (String "092" "x")))) ] ]);
      ("graph",
       JObject [ ("7", JNumber 1); ("12", JNumber 2); ("nodes", JArray []) ]) ]%string.

(** A name between quotes, as it appears in the text. *)
Definition quoted (s : string) : string :=
  String "034" (String.append s (String "034" EmptyString)).

Example sample_summary_text :
  JSON_stringify nat_to_string
    (JObject [ ("cycles_found", JNumber 4); ("names", JArray [ JString "a"; JNull ]) ]%string) 2
  = String.concat nl
      [ "{";
        String.append "  " (String.append (quoted "cycles_found") ": 4,");
        String.append "  " (String.append (quoted "names") ": [");
        String.append "    " (String.append (quoted "a") ",");
        "    null"; "  ]"; "}" ]%string.
Proof. vm_compute. reflexivity. Qed.

Example escapes_text :
  JSON_stringify nat_to_string
    (JString (String "009" (String "034" (String "092" (String "001" "x"))))) 2
  = quoted (String "092" (String "t" (String "092" (String "034" (String "092"
      (String "092" (String "092" "u0001x"))))))).
Proof. vm_compute. reflexivity. Qed.

(** Reading an object: a repeated key keeps its place and its last
    value, and array indices come first in ascending order. *)
Example parse_object_order :
  JSON_parse nat_of_string
    (String.concat ""
       [ "{"; quoted "b"; ":1,"; quoted "10"; ":2, "; quoted "9"; ":3,";
         quoted "b"; ": 4}" ]%string)
  = Some (JObject [ ("9", JNumber 3); ("10", JNumber 2); ("b", JNumber 4) ]%string).
Proof. vm_compute. reflexivity. Qed.

Lemma download_roundtrip_witness :
  JSON_parse nat_of_string (content (downloadJSON nat_to_string sample_report))
  = Some sample_report.
Proof.
  apply (download_roundtrip nat_to_string nat_of_string nat_roundtrip nat_token sample_report).
  cbn [wf sample_report fold_right fmap list_fmap fst snd].
  repeat split; try reflexivity;
    match goal with
    | |- NoDup ?l => apply (bool_decide_unpack (NoDup l)); vm_compute; exact I
    | |- enumeration_order ?l =>
        apply (bool_decide_unpack
                 (StronglySorted (fun k1 k2 => key_before k1 k2 = true) l));
        vm_compute; exact I
    end.
Defined.

End DownloadBar.

(* ================================================================== *)
(** ** UploadZone.jsx

    The upload zone hands a dropped or picked file to [onFile] and
    shows the progress of a running analysis or the prompt, and the
    error under it. *)
(* ================================================================== *)

Module UploadZone.

(** A file of a drop or of the file input. *)
Record File := { name : string; content : string }.

(** [handleDrop]: [const f = e.dataTransfer.files[0];
    if (f?.name.endsWith('.csv')) onFile(f)].  The result is the file
    handed to [onFile], if any. *)
Definition handleDrop (files : list File) : option File :=
  match files with
  | f :: _ => if JS.ends_with ".csv" (name f) then Some f else None
  | [] => None
  end.

(** [handleChange]: [if (e.target.files[0]) onFile(e.target.files[0])]. *)
Definition handleChange (files : list File) : option File :=
  match files with
  | f :: _ => Some f
  | [] => None
  end.

(** The [progress] prop. *)
Record Progress := { pct : Z; label : string }.

(** What the zone shows: the spinner with the progress label, the width
    of the bar and the percentage, or the prompt with the select button
    and the sample link. *)
Inductive Body :=
| LoadingState (progressLabel : string) (progressFill : Z) (progressPct : Z)
| Prompt.

(** The zone and the block [{error && (...)}] under it. *)
Record View := { body : Body; error_block : option string }.

Definition UploadZone (loading : bool) (progress : Progress) (error : option string) : View :=
  {| body := if loading
             then LoadingState (label progress) (pct progress) (pct progress)
             else Prompt;
     error_block := if JS.truthy error then error else None |}.

(** X14.  A drop hands [onFile] the first dropped file, and only when
    its name ends with [.csv] in lower case; further files are ignored.
    The file input hands over the first picked file whatever its name,
    so every file a drop accepts the input accepts too. *)
Theorem handleDrop_csv (files : list File) :
  (forall f, handleDrop files = Some f <->
             head files = Some f /\ exists stem, name f = String.append stem ".csv") /\
  handleChange files = head files /\
  (forall f, handleDrop files = Some f -> handleChange files = Some f).
Proof.
  destruct files as [ | g files ]; cbn [handleDrop handleChange head].
  - split; [ | split; [ reflexivity | discriminate ] ].
    intros f. split; [ discriminate | intros [ H _ ]; discriminate ].
  - pose proof (JS.ends_with_spec ".csv" (name g)) as Hspec.
    split; [ | split; [ reflexivity | ] ].
    + intros f. destruct (JS.ends_with ".csv" (name g)).
      * split; [ intros [= <-]; split; [ reflexivity | now apply Hspec ] | now intros [ H _ ] ].
      * split; [ discriminate | ]. intros [ [= <-] H ]. apply Hspec in H. discriminate.
    + intros f. now destruct (JS.ends_with ".csv" (name g)).
Qed.

(** A drop of [DATA.CSV] is ignored, the same file picked in the input
    is analysed. *)
Example upper_case_extension :
  let f := {| name := "DATA.CSV"; content := "a,b" |} in
  handleDrop [f] = None /\ handleChange [f] = Some f.
Proof. split; reflexivity. Qed.

End UploadZone.

(* ================================================================== *)
(** ** App.jsx

    The application keeps the result, the loading flag, the progress
    and the error.  Its handlers and the callbacks of a request change
    them; the state reached after any sequence of them is studied. *)
(* ================================================================== *)

Module App.

(** The stages [analyze] and [loadSample] give to [fakeProgress]. *)
Definition analyze_stages : list UploadZone.Progress :=
  [ {| UploadZone.pct := 10; UploadZone.label := "Parsing CSV…" |};
    {| UploadZone.pct := 28; UploadZone.label := "Building transaction graph…" |};
    {| UploadZone.pct := 48; UploadZone.label := "Detecting cycles (Johnson DFS)…" |};
    {| UploadZone.pct := 65; UploadZone.label := "Detecting smurfing patterns…" |};
    {| UploadZone.pct := 80; UploadZone.label := "Detecting shell networks…" |};
    {| UploadZone.pct := 92; UploadZone.label := "Scoring & filtering false positives…" |};
    {| UploadZone.pct := 98; UploadZone.label := "Rendering visualization…" |} ].

Definition sample_stages : list UploadZone.Progress :=
  [ {| UploadZone.pct := 15; UploadZone.label := "Generating sample dataset…" |};
    {| UploadZone.pct := 40; UploadZone.label := "Building transaction graph…" |};
    {| UploadZone.pct := 60; UploadZone.label := "Running detection algorithms…" |};
    {| UploadZone.pct := 85; UploadZone.label := "Scoring accounts…" |};
    {| UploadZone.pct := 98; UploadZone.label := "Rendering visualization…" |} ].

(** The two requests. *)
Inductive Kind := Analyze | Sample.

Definition stages (k : Kind) : list UploadZone.Progress :=
  match k with
  | Analyze => analyze_stages
  | Sample => sample_stages
  end.

(** [e.response?.data?.detail || e.message || 'Analysis failed'] *)
Definition analyze_error (detail message : option string) : string :=
  JS.or_else detail (JS.or_else message "Analysis failed").

(** [e.response?.data?.detail || 'Failed to load sample data'] *)
Definition sample_error (detail : option string) : string :=
  JS.or_else detail "Failed to load sample data".

Section App.

(** The payload of a response, and its truthiness: [null], [0], the
    empty string and [false] are falsy, an object is truthy. *)
Context {Result : Type} (truthy : Result -> bool).

Record AppState := {
  result : option Result;
  loading : bool;
  progress : UploadZone.Progress;
  error : option string
}.

(** The initial values of the four [useState] hooks. *)
Definition init : AppState :=
  {| result := None; loading := false;
     progress := {| UploadZone.pct := 0; UploadZone.label := "" |};
     error := None |}.

(** [tick] of [fakeProgress], at its counter [i]:
    [if (i >= stages.length) return; setProgress(stages[i++])]. *)
Definition tick (k : Kind) (i : nat) (s : AppState) : AppState :=
  match stages k !! i with
  | Some p => {| result := result s; loading := loading s; progress := p; error := error s |}
  | None => s
  end.

(** The synchronous part of [analyze] and of [loadSample]: the three
    setters, then [fakeProgress] whose first tick runs at once. *)
Definition start (k : Kind) (s : AppState) : AppState :=
  tick k 0 {| result := None; loading := true; progress := progress s; error := None |}.

(** The handlers of the interface and the callbacks of a request. *)
Inductive Event :=
| Drop (files : list UploadZone.File)
| Change (files : list UploadZone.File)
| SampleClick
| Tick (k : Kind) (i : nat)
| Responded
| Show (data : Result)
| AnalyzeFailed (detail message : option string)
| SampleFailed (detail : option string)
| Reset.

(** One handler or callback:
    - a drop or a pick runs [analyze] on the file handed to [onFile];
    - the sample link runs [loadSample];
    - a timer of [fakeProgress] fires;
    - the response arrives: [setProgress({ pct: 100, label: 'Done!' })];
    - the timer set on the response fires:
      [setResult(data); setLoading(false)];
    - the request fails: [setError(msg); setLoading(false)];
    - [reset]. *)
Definition step (s : AppState) (e : Event) : AppState :=
  match e with
  | Drop files =>
      match UploadZone.handleDrop files with
      | Some _ => start Analyze s
      | None => s
      end
  | Change files =>
      match UploadZone.handleChange files with
      | Some _ => start Analyze s
      | None => s
      end
  | SampleClick => start Sample s
  | Tick k i => tick k i s
  | Responded =>
      {| result := result s; loading := loading s;
         progress := {| UploadZone.pct := 100; UploadZone.label := "Done!" |};
         error := error s |}
  | Show data =>
      {| result := Some data; loading := false; progress := progress s; error := error s |}
  | AnalyzeFailed detail message =>
      {| result := result s; loading := false; progress := progress s;
         error := Some (analyze_error detail message) |}
  | SampleFailed detail =>
      {| result := result s; loading := false; progress := progress s;
         error := Some (sample_error detail) |}
  | Reset =>
      {| result := None; loading := false; progress := progress s; error := None |}
  end.

(** The state after a sequence of handlers and callbacks, in any
    order. *)
Definition run (events : list Event) : AppState := fold_left step events init.

(** What [App] renders: the upload zone, and the results section
    [{result && (...)}], rendered for a truthy result only. *)
Record Screen := { upload : UploadZone.View; results : option Result }.

Definition render (s : AppState) : Screen :=
  {| upload := UploadZone.UploadZone (loading s) (progress s) (error s);
     results := match result s with
                | Some data => if truthy data then Some data else None
                | None => None
                end |}.

(** [msg] is the message of a failure among the events. *)
Definition failed_with (msg : string) (events : list Event) : Prop :=
  (exists detail message, In (AnalyzeFailed detail message) events /\
                          msg = analyze_error detail message) \/
  (exists detail, In (SampleFailed detail) events /\ msg = sample_error detail).

(** The progress is one the application sets. *)
Definition progress_ok (p : UploadZone.Progress) : Prop :=
  0 <= UploadZone.pct p <= 100 /\
  (UploadZone.pct p = 100 <-> UploadZone.label p = "Done!"%string).

Lemma or_else_nonempty a b : b <> ""%string -> JS.or_else a b <> ""%string.
Proof. intros Hb. destruct a as [ [ | c r ] | ]; cbn [JS.or_else]; [ exact Hb | discriminate | exact Hb ]. Qed.

Lemma analyze_error_nonempty detail message : analyze_error detail message <> ""%string.
Proof. unfold analyze_error. apply or_else_nonempty, or_else_nonempty. discriminate. Qed.

Lemma sample_error_nonempty detail : sample_error detail <> ""%string.
Proof. unfold sample_error. apply or_else_nonempty. discriminate. Qed.

Lemma truthy_nonempty s : s <> ""%string -> JS.truthy (Some s) = true.
Proof. destruct s; [ congruence | reflexivity ]. Qed.

Lemma stages_ok k i p : stages k !! i = Some p -> progress_ok p.
Proof.
  intros H. apply list_elem_of_lookup_2, list_elem_of_In in H.
  destruct k; cbn [stages analyze_stages sample_stages In] in H;
    repeat (destruct H as [ <- | H ]; [ split; [ simpl; lia | split; intros E; discriminate E ] | ]);
    destruct H.
Qed.

(** What every handler and callback keeps true. *)
Definition invariant (s : AppState) : Prop :=
  (loading s = true -> result s = None /\ error s = None) /\
  (error s <> Some ""%string) /\
  progress_ok (progress s).

Lemma invariant_init : invariant init.
Proof.
  split; [ discriminate | ]. split; [ discriminate | ].
  split; [ simpl; lia | split; intros E; discriminate E ].
Qed.

Lemma invariant_tick k i s : invariant s -> invariant (tick k i s).
Proof.
  intros (H1 & H2 & H3). unfold tick.
  destruct (stages k !! i) as [ p | ] eqn:E;
    (split; [ exact H1 | split; [ exact H2 | ] ]); [ | exact H3 ].
  cbn [progress]. now apply stages_ok with k i.
Qed.

Lemma invariant_start k s : invariant s -> invariant (start k s).
Proof.
  intros (H1 & H2 & H3). apply invariant_tick.
  split; [ now split | ]. split; [ discriminate | exact H3 ].
Qed.

Lemma invariant_step s e : invariant s -> invariant (step s e).
Proof.
  intros Hs. pose proof Hs as (H1 & H2 & H3).
  destruct e; cbn [step].
  - destruct (UploadZone.handleDrop files); [ now apply invariant_start | exact Hs ].
  - destruct (UploadZone.handleChange files); [ now apply invariant_start | exact Hs ].
  - now apply invariant_start.
  - now apply invariant_tick.
  - split; [ exact H1 | ]. split; [ exact H2 | ]. split; [ simpl; lia | now split ].
  - split; [ discriminate | ]. split; [ exact H2 | exact H3 ].
  - split; [ discriminate | ]. split; [ | exact H3 ].
    cbn [error]. intros [= E]. now apply analyze_error_nonempty in E.
  - split; [ discriminate | ]. split; [ | exact H3 ].
    cbn [error]. intros [= E]. now apply sample_error_nonempty in E.
  - split; [ discriminate | ]. split; [ discriminate | exact H3 ].
Qed.

Lemma invariant_fold events s : invariant s -> invariant (fold_left step events s).
Proof.
  revert s. induction events as [ | e events IH ]; intros s Hs; [ exact Hs | ].
  apply IH. now apply invariant_step.
Qed.

Lemma tick_fields k i s :
  result (tick k i s) = result s /\ error (tick k i s) = error s /\
  loading (tick k i s) = loading s.
Proof. unfold tick. now destruct (stages k !! i). Qed.

Lemma result_step s e data :
  result (step s e) = Some data -> result s = Some data \/ e = Show data.
Proof.
  destruct e; cbn [step]; unfold start;
    try destruct (UploadZone.handleDrop files); try destruct (UploadZone.handleChange files);
    rewrite ?(proj1 (tick_fields _ _ _)); cbn [result];
    try (intros H; discriminate H); try (intros H; now left).
  intros [= ->]. now right.
Qed.

Lemma error_step s e msg :
  error (step s e) = Some msg -> error s = Some msg \/ failed_with msg [e].
Proof.
  destruct e; cbn [step]; unfold start;
    try destruct (UploadZone.handleDrop files); try destruct (UploadZone.handleChange files);
    rewrite ?(proj1 (proj2 (tick_fields _ _ _))); cbn [error];
    try (intros H; discriminate H); try (intros H; now left).
  - intros [= <-]. right. left. exists detail, message. split; [ now left | reflexivity ].
  - intros [= <-]. right. right. exists detail. split; [ now left | reflexivity ].
Qed.

Lemma failed_with_cons msg e events :
  failed_with msg [e] \/ failed_with msg events -> failed_with msg (e :: events).
Proof.
  intros [ [ (d & m & [ -> | [] ] & E) | (d & [ -> | [] ] & E) ]
         | [ (d & m & Hin & E) | (d & Hin & E) ] ].
  - left. exists d, m. split; [ now left | exact E ].
  - right. exists d. split; [ now left | exact E ].
  - left. exists d, m. split; [ now right | exact E ].
  - right. exists d. split; [ now right | exact E ].
Qed.

Lemma result_fold events s data :
  result (fold_left step events s) = Some data ->
  result s = Some data \/ In (Show data) events.
Proof.
  revert s. induction events as [ | e events IH ]; intros s H; [ now left | ].
  cbn [fold_left] in H. destruct (IH _ H) as [ Hs | Hin ]; [ | right; now right ].
  destruct (result_step _ _ _ Hs) as [ Hr | -> ]; [ now left | right; now left ].
Qed.

Lemma error_fold events s msg :
  error (fold_left step events s) = Some msg ->
  error s = Some msg \/ failed_with msg events.
Proof.
  revert s. induction events as [ | e events IH ]; intros s H; [ now left | ].
  cbn [fold_left] in H.
  destruct (IH _ H) as [ Hs | Hin ]; [ | right; apply failed_with_cons; now right ].
  destruct (error_step _ _ _ Hs) as [ Hr | Hf ]; [ now left | ].
  right. apply failed_with_cons. now left.
Qed.

(** X15.  The message of a failed request is never empty.  The detail
    sent by the server is shown when there is one; without it a failed
    analysis shows the message of the error and, failing that, a fixed
    text, while a failed sample request shows its fixed text whatever
    the message of the error. *)
Theorem error_messages (detail message : option string) :
  analyze_error detail message <> ""%string /\
  sample_error detail <> ""%string /\
  (JS.truthy detail = true ->
   Some (analyze_error detail message) = detail /\ Some (sample_error detail) = detail) /\
  (JS.truthy detail = false ->
   sample_error detail = "Failed to load sample data"%string /\
   (JS.truthy message = true -> Some (analyze_error detail message) = message) /\
   (JS.truthy message = false -> analyze_error detail message = "Analysis failed"%string)).
Proof.
  split; [ apply analyze_error_nonempty | ]. split; [ apply sample_error_nonempty | ].
  unfold analyze_error, sample_error.
  destruct detail as [ [ | c r ] | ]; cbn [JS.truthy JS.or_else];
    (split; [ intros H; try discriminate H; now split | ]);
    intros H; try discriminate H;
    (split; [ reflexivity | ]);
    destruct message as [ [ | c' r' ] | ]; cbn [JS.truthy JS.or_else];
    split; intros H'; try discriminate H'; reflexivity.
Qed.

Lemma error_messages_witness :
  Some (analyze_error None (Some "Network Error"%string)) = Some "Network Error"%string /\
  sample_error None = "Failed to load sample data"%string.
Proof.
  destruct (error_messages None (Some "Network Error"%string)) as (_ & _ & _ & H).
  destruct (H eq_refl) as (Hs & Hm & _). split; [ exact (Hm eq_refl) | exact Hs ].
Defined.

Lemma results_render s data :
  results (render s) = Some data <-> result s = Some data /\ truthy data = true.
Proof.
  cbn [render results]. destruct (result s) as [ d | ]; [ | split; [ | intros [ H _ ] ]; discriminate ].
  destruct (truthy d) eqn:E; split.
  - intros [= ->]. now split.
  - now intros [ H _ ].
  - discriminate.
  - intros [ [= ->] H ]. congruence.
Qed.

(** X16.  After any sequence of drops, picks, sample requests, progress
    timers, responses, failures and resets: while the spinner is shown
    the application holds no result and no error, so neither is on the
    screen; the error block shows the error the application holds,
    which is never empty; the progress stays between 0 and 100 and is
    100 exactly with the label [Done!]; a result the application holds,
    and so a result on the screen, is the payload of a response and an
    error the message of a failure among the events; and the results
    section is on the screen exactly for a truthy result. *)
Theorem app_screen (events : list Event) :
  let s := run events in
  (loading s = true ->
   results (render s) = None /\ UploadZone.error_block (upload (render s)) = None) /\
  UploadZone.error_block (upload (render s)) = error s /\
  progress_ok (progress s) /\
  (forall data, results (render s) = Some data -> In (Show data) events) /\
  (forall msg, error s = Some msg -> msg <> ""%string /\ failed_with msg events) /\
  (loading s = true -> result s = None) /\
  (forall data, result s = Some data -> In (Show data) events) /\
  (forall data, results (render s) = Some data <->
                result s = Some data /\ truthy data = true).
Proof.
  intros s. destruct (invariant_fold events init invariant_init) as (H1 & H2 & H3).
  fold (run events) in H1, H2, H3. fold s in H1, H2, H3.
  assert (Hblock : UploadZone.error_block (upload (render s)) = error s).
  { cbn [render upload UploadZone.UploadZone UploadZone.error_block].
    destruct (error s) as [ [ | c r ] | ]; [ congruence | reflexivity | reflexivity ]. }
  assert (Hshown : forall data, result s = Some data -> In (Show data) events).
  { intros data Hd.
    destruct (result_fold events init data Hd) as [ H | H ]; [ discriminate H | exact H ]. }
  split; [ | split; [ exact Hblock | split; [ exact H3 | split; [ | split ] ] ] ].
  - intros Hl. destruct (H1 Hl) as [ Hr He ]. rewrite Hblock. split; [ | exact He ].
    cbn [render results]. now rewrite Hr.
  - intros data Hd. apply results_render in Hd as [ Hd _ ]. now apply Hshown.
  - intros msg Hm. split; [ intros ->; now apply H2 | ].
    destruct (error_fold events init msg Hm) as [ H | H ]; [ discriminate H | exact H ].
  - split; [ intros Hl; now destruct (H1 Hl) | ].
    split; [ exact Hshown | apply results_render ].
Qed.

(** X17.  A drop does not look at the loading flag, so a second file
    dropped while the first is analysed starts a second request.  When
    the first request then succeeds with a truthy payload and the second
    fails, the screen shows the result of the first together with the
    error of the second. *)
Theorem overlapping_requests (s : AppState) (files files' : list UploadZone.File)
    (data : Result) (detail message : option string) :
  is_Some (UploadZone.handleDrop files) ->
  is_Some (UploadZone.handleDrop files') ->
  truthy data = true ->
  let s1 := step s (Drop files) in
  let s2 := step s1 (Drop files') in
  let s4 := step (step s2 (Show data)) (AnalyzeFailed detail message) in
  loading s1 = true /\ loading s2 = true /\
  results (render s4) = Some data /\
  UploadZone.error_block (upload (render s4)) = Some (analyze_error detail message).
Proof.
  intros [ f Hf ] [ f' Hf' ] Hdata. cbn [step]. rewrite Hf. cbn [step]. rewrite Hf'.
  cbv zeta.
  cbn [render results result upload loading error UploadZone.UploadZone UploadZone.error_block].
  rewrite Hdata, truthy_nonempty by apply analyze_error_nonempty.
  repeat split.
Qed.

End App.

(** A run with a payload of one number: a sample request that fails,
    then a dropped file whose analysis succeeds. *)
Definition sample_file : UploadZone.File :=
  {| UploadZone.name := "transactions.csv"; UploadZone.content := "id,amount" |}.

Definition sample_events : list (@Event Z) :=
  [ SampleClick; Tick Sample 1; SampleFailed None;
    Drop [sample_file]; Tick Analyze 1; Responded; Show 7 ].

(** A number is truthy unless it is zero. *)
Definition sample_truthy (data : Z) : bool := negb (data =? 0).

Lemma app_screen_witness :
  In (Show 7) sample_events.
Proof.
  apply (proj1 (proj2 (proj2 (proj2 (app_screen sample_truthy sample_events))))).
  reflexivity.
Defined.

Lemma overlapping_requests_witness :
  let s4 := step (step (step (step init (Drop [sample_file])) (Drop [sample_file])) (Show 7))
                 (AnalyzeFailed None (Some "timeout of 300000ms exceeded"%string)) in
  results (render sample_truthy s4) = Some 7 /\
  UploadZone.error_block (upload (render sample_truthy s4))
  = Some "timeout of 300000ms exceeded"%string.
Proof.
  intros s4.
  destruct (overlapping_requests sample_truthy init [sample_file] [sample_file] 7 None
              (Some "timeout of 300000ms exceeded"%string)) as (_ & _ & Hr & He).
  - apply (bool_decide_unpack (is_Some _)). vm_compute. exact I.
  - apply (bool_decide_unpack (is_Some _)). vm_compute. exact I.
  - reflexivity.
  - split; [ exact Hr | exact He ].
Defined.

(** A response whose payload is falsy is stored but not rendered. *)
Example falsy_payload :
  let s := run [ SampleClick; Responded; Show 0 ] in
  result s = Some 0 /\ results (render sample_truthy s) = None.
Proof. split; reflexivity. Qed.

End App.
